(** * Personal notes manager: the note store, the filtered view and the
      selection logic of [notes_frontend/src/App.js]

    The React component [App] keeps its state in five [useState] cells and
    changes it from event handlers; two effects run after a render whose
    dependencies changed.  The embedding threads that state explicitly: a
    handler is a function on [State], the answers of the environment
    ([Date.now()], [Math.random()], [window.confirm]) are arguments of the
    handler that asks for them, and [localStorage] is a finite map from keys
    to strings.

    Conventions.
    - A JavaScript string is a [string]; a character stands for one code
      unit, so the model covers code units below 256.
      [String.prototype.toLowerCase] belongs to the engine and is a section
      variable; [toLowerCase_latin1] instantiates it on concrete data.
    - A timestamp is a [Z]: [Date.now()] is an integral number of
      milliseconds, in the range where Numbers are exact and print in plain
      digits.
    - [selectedId] is an [option string]; [None] is JavaScript's [null].
    - Library functions of the engine ([sort], [includes], [findIndex],
      [toString(radix)], [JSON.stringify], [JSON.parse]) are modelled by
      functions of the same name. *)

From Stdlib Require Import ZArith NArith String Ascii List Bool Lia.
From Stdlib Require Import Sorting.Sorted Sorting.Permutation.
From stdpp Require Import base option list strings gmap.

Local Open Scope Z_scope.

(** ** Data model *)

(** [{id, title, content, updated}], in the order [handleAddNote] creates the
    properties. *)
Record Note := mkNote {
  id : string;
  title : string;
  content : string;
  updated : Z
}.

#[global] Instance Note_eq_dec : EqDecision Note.
Proof. solve_decision. Defined.

(** The string-valued keys a patch can name.  The fourth key, [updated], is
    overwritten by the patch itself whatever the caller passes. *)
Inductive Field := FId | FTitle | FContent.

#[global] Instance Field_eq_dec : EqDecision Field.
Proof. solve_decision. Defined.

Definition get_field (f : Field) (n : Note) : string :=
  match f with
  | FId => id n
  | FTitle => title n
  | FContent => content n
  end.

(** [{ ...n, [field]: value }] *)
Definition set_field (f : Field) (v : string) (n : Note) : Note :=
  match f with
  | FId => mkNote v (title n) (content n) (updated n)
  | FTitle => mkNote (id n) v (content n) (updated n)
  | FContent => mkNote (id n) (title n) v (updated n)
  end.

(** The component state: the five [useState] cells of [App]. *)
Record State := mkState {
  notes : list Note;
  selectedId : option string;
  query : string;
  sidebarOpen : bool;
  addMode : bool
}.

Definition ids (l : list Note) : list string := map id l.

(** ** Engine library: strings *)

(** [c.charCodeAt(0)] *)
Definition code (c : ascii) : N := N_of_ascii c.

(** [s.includes(q)]: [q] occurs in [s] as a contiguous run of code units. *)
Fixpoint includes (s q : string) : bool :=
  String.prefix q s ||
  match s with
  | EmptyString => false
  | String _ s' => includes s' q
  end.

(** [s.substr(start, len)] for non-negative arguments. *)
Definition substr (start len : nat) (s : string) : string :=
  String.substring start len s.

(** Lower-casing of code units below 256: [A-Z] and the accented capitals
    [0xC0-0xDE] except the multiplication sign [0xD7]. *)
Definition lower_ascii (c : ascii) : ascii :=
  let n := code c in
  if ((65 <=? n) && (n <=? 90))%N then ascii_of_N (n + 32)
  else if ((192 <=? n) && (n <=? 222) && negb (n =? 215))%N
       then ascii_of_N (n + 32)
  else c.

Fixpoint toLowerCase_latin1 (s : string) : string :=
  match s with
  | EmptyString => EmptyString
  | String c s' => String (lower_ascii c) (toLowerCase_latin1 s')
  end.

(** ** Engine library: [Number.prototype.toString(radix)] on integers *)

(** Digits [0-9a-z]. *)
Definition digit_char (d : N) : ascii :=
  if (d <? 10)%N then ascii_of_N (48 + d) else ascii_of_N (87 + d).

(** Most significant digit first; [fuel] bounds the number of digits. *)
Fixpoint digits (radix : N) (fuel : nat) (n : N) (acc : string) : string :=
  match fuel with
  | O => acc
  | S fuel' =>
      let acc' := String (digit_char (n mod radix)) acc in
      if (n / radix =? 0)%N then acc' else digits radix fuel' (n / radix) acc'
  end.

Definition N_toString (radix n : N) : string :=
  digits radix (S (N.to_nat (N.size n))) n "".

Definition Number_toString (radix : N) (z : Z) : string :=
  match z with
  | Z0 => "0"
  | Zpos p => N_toString radix (Npos p)
  | Zneg p => "-" +:+ N_toString radix (Npos p)
  end.

(** Reading a numeral back, most significant digit first. *)
Definition digit_val (c : ascii) : N :=
  if (code c <? 58)%N then (code c - 48)%N else (code c - 87)%N.

Fixpoint numeral_value (radix : N) (s : string) (acc : N) : N :=
  match s with
  | EmptyString => acc
  | String c s' => numeral_value radix s' (radix * acc + digit_val c)%N
  end.

(** ** Engine library: arrays *)

(** [Array.prototype.sort].  ECMAScript requires the sort to be stable; with
    a consistent comparator the result is then determined, so any stable
    algorithm models it.  This one inserts from the right: an element is
    placed before the first element it does not have to follow. *)
Section Sort.
Context {A : Type} (comparefn : A -> A -> Z).

Fixpoint sort_insert (x : A) (l : list A) : list A :=
  match l with
  | [] => [x]
  | y :: l' => if comparefn x y <=? 0 then x :: l else y :: sort_insert x l'
  end.

Definition sort (l : list A) : list A := foldr sort_insert [] l.
End Sort.

(** [arr.findIndex(p)]: the first index whose element satisfies [p], or -1. *)
Definition findIndex {A} (p : A -> bool) (l : list A) : Z :=
  match list_find (fun x => p x = true) l with
  | Some (i, _) => Z.of_nat i
  | None => -1
  end.

(** [arr[i]] for a Number index: [undefined] outside the array. *)
Definition at_index {A} (l : list A) (i : Z) : option A :=
  if i <? 0 then None else l !! Z.to_nat i.

(** The characters [0-9]. *)
Definition is_decimal (c : ascii) : bool :=
  ((48 <=? code c) && (code c <=? 57))%N.

(** ** Engine library: JSON

    [JSON.stringify] without indentation and [JSON.parse] without reviver,
    on values whose Numbers are integers.  The parser follows the JSON
    grammar (white space, escapes, nesting); a numeral with a fraction or an
    exponent is outside the integers modelled and is refused like a syntax
    error. *)
#[local] Unset Elimination Schemes.
Inductive json :=
| JNull
| JBool (b : bool)
| JNum (z : Z)
| JStr (s : string)
| JArr (l : list json)
| JObj (m : list (string * json)).
#[local] Set Elimination Schemes.

Definition dquote : ascii := "034"%char.

Definition escape_char (c : ascii) : string :=
  let n := code c in
  if (n =? 34)%N then String "\" (String dquote "")
  else if (n =? 92)%N then "\\"
  else if (n =? 8)%N then "\b"
  else if (n =? 12)%N then "\f"
  else if (n =? 10)%N then "\n"
  else if (n =? 13)%N then "\r"
  else if (n =? 9)%N then "\t"
  else if (n <? 32)%N then
    "\u00" +:+ String (digit_char (n / 16)) (String (digit_char (n mod 16)) "")
  else String c "".

Fixpoint escape (s : string) : string :=
  match s with
  | EmptyString => ""
  | String c s' => escape_char c +:+ escape s'
  end.

Definition quote (s : string) : string :=
  String dquote (escape s +:+ String dquote "").

Fixpoint JSON_stringify (v : json) : string :=
  match v with
  | JNull => "null"
  | JBool true => "true"
  | JBool false => "false"
  | JNum z => Number_toString 10 z
  | JStr s => quote s
  | JArr l => "[" +:+ String.concat "," (map JSON_stringify l) +:+ "]"
  | JObj m =>
      "{" +:+ String.concat ","
               (map (fun kv => quote (fst kv) +:+ ":" +:+ JSON_stringify (snd kv))
                  m)
          +:+ "}"
  end.

Definition is_ws (c : ascii) : bool :=
  ((code c =? 32) || (code c =? 9) || (code c =? 10) || (code c =? 13))%N.

Fixpoint skip_ws (s : string) : string :=
  match s with
  | EmptyString => ""
  | String c r => if is_ws c then skip_ws r else s
  end.

Fixpoint strip_prefix (p s : string) : option string :=
  match p with
  | EmptyString => Some s
  | String c p' =>
      match s with
      | EmptyString => None
      | String d s' => if (c =? d)%char then strip_prefix p' s' else None
      end
  end.

Definition hex_val (c : ascii) : option N :=
  let n := code c in
  if ((48 <=? n) && (n <=? 57))%N then Some (n - 48)%N
  else if ((97 <=? n) && (n <=? 102))%N then Some (n - 87)%N
  else if ((65 <=? n) && (n <=? 70))%N then Some (n - 55)%N
  else None.

Definition unescape (e : ascii) : option ascii :=
  let n := code e in
  if ((n =? 34) || (n =? 92) || (n =? 47))%N then Some e
  else if (n =? 98)%N then Some (ascii_of_N 8)
  else if (n =? 102)%N then Some (ascii_of_N 12)
  else if (n =? 110)%N then Some (ascii_of_N 10)
  else if (n =? 114)%N then Some (ascii_of_N 13)
  else if (n =? 116)%N then Some (ascii_of_N 9)
  else None.

(** The characters after an opening quote, up to the closing one. *)
Fixpoint parse_string (s : string) : option (string * string) :=
  match s with
  | EmptyString => None
  | String c r =>
      if (code c =? 34)%N then Some ("", r)
      else if (code c =? 92)%N then
        match r with
        | EmptyString => None
        | String e r1 =>
            if (code e =? 117)%N then
              match r1 with
              | String h1 (String h2 (String h3 (String h4 r2))) =>
                  match hex_val h1, hex_val h2, hex_val h3, hex_val h4 with
                  | Some a, Some b, Some c', Some d =>
                      let n := (((a * 16 + b) * 16 + c') * 16 + d)%N in
                      if (n <? 256)%N then
                        '(str, rest) ← parse_string r2;
                        Some (String (ascii_of_N n) str, rest)
                      else None
                  | _, _, _, _ => None
                  end
              | _ => None
              end
            else
              match unescape e with
              | Some ch =>
                  '(str, rest) ← parse_string r1; Some (String ch str, rest)
              | None => None
              end
        end
      else if (code c <? 32)%N then None
      else '(str, rest) ← parse_string r; Some (String c str, rest)
  end.

Fixpoint take_decimal (s : string) : string * string :=
  match s with
  | EmptyString => ("", "")
  | String c r =>
      if is_decimal c
      then let '(ds, rest) := take_decimal r in (String c ds, rest)
      else ("", s)
  end.

(** True where a numeral cannot go on: at the end, or before a character
    that is no digit, point or exponent mark. *)
Definition number_stop (s : string) : bool :=
  match s with
  | EmptyString => true
  | String c _ =>
      negb (is_decimal c || (code c =? 46) || (code c =? 101)
            || (code c =? 69))%N
  end.

(** Decimal digits without a superfluous leading zero, and nothing of a
    fraction or an exponent after them. *)
Definition parse_unsigned (s : string) : option (N * string) :=
  let '(ds, rest) := take_decimal s in
  match ds with
  | EmptyString => None
  | String d0 ds' =>
      if (code d0 =? 48)%N && negb (bool_decide (ds' = "")) then None
      else if negb (number_stop rest) then None
      else Some (numeral_value 10 ds 0, rest)
  end.

Definition parse_number (s : string) : option (Z * string) :=
  match s with
  | EmptyString => None
  | String c r =>
      if (code c =? 45)%N
      then '(n, rest) ← parse_unsigned r; Some (- Z.of_N n, rest)
      else '(n, rest) ← parse_unsigned s; Some (Z.of_N n, rest)
  end.

Fixpoint parse_value (fuel : nat) (s : string) : option (json * string) :=
  match fuel with
  | O => None
  | S fuel' =>
      match skip_ws s with
      | EmptyString => None
      | String c r as s0 =>
          if (code c =? 110)%N then
            r' ← strip_prefix "null" s0; Some (JNull, r')
          else if (code c =? 116)%N then
            r' ← strip_prefix "true" s0; Some (JBool true, r')
          else if (code c =? 102)%N then
            r' ← strip_prefix "false" s0; Some (JBool false, r')
          else if (code c =? 34)%N then
            '(str, r') ← parse_string r; Some (JStr str, r')
          else if (code c =? 91)%N then
            match skip_ws r with
            | EmptyString => None
            | String c2 r2 as r0 =>
                if (code c2 =? 93)%N then Some (JArr [], r2)
                else '(l, r') ← parse_elements fuel' r0; Some (JArr l, r')
            end
          else if (code c =? 123)%N then
            match skip_ws r with
            | EmptyString => None
            | String c2 r2 as r0 =>
                if (code c2 =? 125)%N then Some (JObj [], r2)
                else '(m, r') ← parse_members fuel' r0; Some (JObj m, r')
            end
          else '(z, r') ← parse_number s0; Some (JNum z, r')
      end
  end
with parse_elements (fuel : nat) (s : string) : option (list json * string) :=
  match fuel with
  | O => None
  | S fuel' =>
      '(v, r) ← parse_value fuel' s;
      match skip_ws r with
      | EmptyString => None
      | String c r1 =>
          if (code c =? 44)%N then
            '(l, r2) ← parse_elements fuel' r1; Some (v :: l, r2)
          else if (code c =? 93)%N then Some ([v], r1)
          else None
      end
  end
with parse_members (fuel : nat) (s : string)
    : option (list (string * json) * string) :=
  match fuel with
  | O => None
  | S fuel' =>
      match skip_ws s with
      | EmptyString => None
      | String q r =>
          if (code q =? 34)%N then
            '(k, r1) ← parse_string r;
            match skip_ws r1 with
            | EmptyString => None
            | String c r2 =>
                if (code c =? 58)%N then
                  '(v, r3) ← parse_value fuel' r2;
                  match skip_ws r3 with
                  | EmptyString => None
                  | String c' r4 =>
                      if (code c' =? 44)%N then
                        '(m, r5) ← parse_members fuel' r4;
                        Some ((k, v) :: m, r5)
                      else if (code c' =? 125)%N then Some ([(k, v)], r4)
                      else None
                  end
                else None
            end
          else None
      end
  end.

Definition JSON_parse (s : string) : option json :=
  '(v, r) ← parse_value (String.length s) s;
  match skip_ws r with
  | EmptyString => Some v
  | String _ _ => None
  end.


(** A note as a JavaScript object and back.  Reading a property takes the
    last binding of the key, as a parsed object holds it; properties other
    than the four of a note are not part of [Note]. *)
Definition note_to_json (n : Note) : json :=
  JObj [("id", JStr (id n)); ("title", JStr (title n));
        ("content", JStr (content n)); ("updated", JNum (updated n))].

Fixpoint get_prop (k : string) (m : list (string * json)) : option json :=
  match m with
  | [] => None
  | (k', v) :: m' =>
      match get_prop k m' with
      | Some v' => Some v'
      | None => if decide (k = k') then Some v else None
      end
  end.

Definition json_to_note (v : json) : option Note :=
  match v with
  | JObj m =>
      match get_prop "id" m, get_prop "title" m,
            get_prop "content" m, get_prop "updated" m with
      | Some (JStr i), Some (JStr t), Some (JStr c), Some (JNum u) =>
          Some (mkNote i t c u)
      | _, _, _, _ => None
      end
  | _ => None
  end.

Definition json_to_notes (v : json) : option (list Note) :=
  match v with
  | JArr l => mapM json_to_note l
  | _ => None
  end.

(** ** [localStorage] and the two ends of persistence *)

Definition STORAGE_KEY : string := "notes:v1".

(** [localStorage.setItem("notes:v1", JSON.stringify(notes))] *)
Definition persist_effect (st : State) (ls : gmap string string)
    : gmap string string :=
  <[STORAGE_KEY := JSON_stringify (JArr (map note_to_json (notes st)))]> ls.

(** The initializer of the [notes] cell: a missing or empty entry gives the
    empty collection; [None] is a stored text that does not parse to notes. *)
Definition load_notes (ls : gmap string string) : option (list Note) :=
  match ls !! STORAGE_KEY with
  | Some saved =>
      if decide (saved = "") then Some []
      else v ← JSON_parse saved; json_to_notes v
  | None => Some []
  end.

(** The state of the first render, for a window [width] pixels wide. *)
Definition initial_state (width : Z) (ls : gmap string string) : option State :=
  l ← load_notes ls; Some (mkState l None "" (600 <? width) false).

(** ** [generateId] *)

(** [rnd] is the string [Math.random().toString(36)] (how a fraction prints
    in radix 36 is left to the engine) and [now] is [Date.now()]. *)
Definition generateId (rnd : string) (now : Z) : string :=
  "note_" +:+ substr 2 9 rnd +:+ "_" +:+ Number_toString 36 now.

(** ** The component *)

(** [(a, b) => b.updated - a.updated] *)
Definition by_updated_desc (a b : Note) : Z := updated b - updated a.

Section App.
Variable toLowerCase : string -> string.

(** The predicate of the [filter] in [getFilteredNotes]. *)
Definition matches (q : string) (n : Note) : bool :=
  includes (toLowerCase (title n)) q || includes (toLowerCase (content n)) q.

Definition getFilteredNotes (st : State) : list Note :=
  if decide (query st = "") then sort by_updated_desc (notes st)
  else
    let q := toLowerCase (query st) in
    sort by_updated_desc (List.filter (matches q) (notes st)).

(** The effect on [[notes, query]]: keep the selection inside the view. *)
Definition selection_effect (st : State) : State :=
  let ids := map id (getFilteredNotes st) in
  match ids with
  | [] => mkState (notes st) None (query st) (sidebarOpen st) (addMode st)
  | first :: _ =>
      if match selectedId st with
         | Some s => bool_decide (s ∈ ids)
         | None => false
         end
      then st
      else mkState (notes st) (Some first) (query st) (sidebarOpen st)
             (addMode st)
  end.
End App.

(** [handleAddNote]: [t_id] is the clock reading inside [generateId],
    [created] the one taken right after it. *)
Definition new_note (rnd : string) (t_id created : Z) : Note :=
  mkNote (generateId rnd t_id) "Untitled Note" "" created.

Definition handleAddNote (rnd : string) (t_id created : Z) (st : State)
    : State :=
  let note := new_note rnd t_id created in
  mkState (note :: notes st) (Some (id note)) (query st) (sidebarOpen st) false.

(** [{ ...n, [field]: value, updated: Date.now() }] *)
Definition patch (field : Field) (value : string) (now : Z) (n : Note) : Note :=
  let n' := set_field field value n in
  mkNote (id n') (title n') (content n') now.

Definition handleEditNote (i : string) (field : Field) (value : string)
    (now : Z) (st : State) : State :=
  mkState
    (map (fun n => if decide (id n = i) then patch field value now n else n)
       (notes st))
    (selectedId st) (query st) (sidebarOpen st) (addMode st).

(** [handleDeleteNote]: [confirmed] is the answer of [window.confirm].  The
    handler reads [notes] of the render it was created in, which is the
    current collection when it runs.  The result is [None] where the handler
    would throw on [undefined.id]. *)
Definition handleDeleteNote (confirmed : bool) (i : string) (st : State)
    : option State :=
  if negb confirmed then Some st
  else
    let idx := findIndex (fun n => bool_decide (id n = i)) (notes st) in
    let len := Z.of_nat (length (notes st)) in
    nextSelected ←
      (if 1 <? len then
         if idx =? len - 1
         then n ← at_index (notes st) (idx - 1); Some (Some (id n))
         else n ← at_index (notes st) (idx + 1); Some (Some (id n))
       else Some None);
    Some (mkState
            (List.filter (fun n => negb (bool_decide (id n = i))) (notes st))
            nextSelected (query st) (sidebarOpen st) (addMode st)).

Definition handleSearch (value : string) (st : State) : State :=
  mkState (notes st) (selectedId st) value (sidebarOpen st) (addMode st).

Definition handleSelectNote (i : string) (st : State) : State :=
  mkState (notes st) (Some i) (query st) false (addMode st).

Definition handleStartAdd (st : State) : State :=
  mkState (notes st) (selectedId st) (query st) (sidebarOpen st) true.

Definition handleCancelAdd (st : State) : State :=
  mkState (notes st) (selectedId st) (query st) (sidebarOpen st) false.

Definition handleSidebarToggle (st : State) : State :=
  mkState (notes st) (selectedId st) (query st) (negb (sidebarOpen st))
    (addMode st).

(** The [resize] listener, for a window now [width] pixels wide. *)
Definition handleResize (width : Z) (st : State) : State :=
  mkState (notes st) (selectedId st) (query st) (600 <? width) (addMode st).

(** [notes.find((n) => n.id === selectedId)] *)
Definition selectedNote (st : State) : option Note :=
  match selectedId st with
  | Some s => List.find (fun n => bool_decide (id n = s)) (notes st)
  | None => None
  end.

(** ** Runs of store operations

    The operations that change the collection: creating, the two edits the
    editor offers ([onEdit(note.id, "title", v)] and
    [onEdit(note.id, "content", v)]) and deleting.  After a handler that set
    the [notes] cell, the persist effect and the selection effect run. *)
Inductive Op :=
| Create (rnd : string) (t_id created : Z)
| EditTitle (i value : string) (now : Z)
| EditContent (i value : string) (now : Z)
| Delete (i : string) (confirmed : bool).

Record World := mkWorld {
  app : State;
  localStorage : gmap string string
}.

Definition apply_op (op : Op) (st : State) : option State :=
  match op with
  | Create rnd t_id created => Some (handleAddNote rnd t_id created st)
  | EditTitle i v now => Some (handleEditNote i FTitle v now st)
  | EditContent i v now => Some (handleEditNote i FContent v now st)
  | Delete i confirmed => handleDeleteNote confirmed i st
  end.

(** A declined deletion returns before any cell is set. *)
Definition sets_notes (op : Op) : bool :=
  match op with
  | Delete _ false => false
  | _ => true
  end.

Section Run.
Variable toLowerCase : string -> string.

Definition step (op : Op) (w : World) : option World :=
  st' ← apply_op op (app w);
  Some (if sets_notes op
        then mkWorld (selection_effect toLowerCase st')
               (persist_effect st' (localStorage w))
        else w).

Fixpoint run (ops : list Op) (w : World) : option World :=
  match ops with
  | [] => Some w
  | op :: ops' => w' ← step op w; run ops' w'
  end.
End Run.

(** The ids handed out by a run, oldest first. *)
Fixpoint created_ids (ops : list Op) : list string :=
  match ops with
  | [] => []
  | Create rnd t_id _ :: ops' => generateId rnd t_id :: created_ids ops'
  | _ :: ops' => created_ids ops'
  end.

(** ** Vocabulary of the statements *)

(** [x] may stand before [y] under the comparator. *)
Definition before {A} (comparefn : A -> A -> Z) (x y : A) : Prop :=
  comparefn x y <= 0.

(** Display order: a note never stands before a more recently updated one. *)
Definition newer_first (a b : Note) : Prop := updated b <= updated a.






Fixpoint string_forall (p : ascii -> bool) (s : string) : bool :=
  match s with
  | EmptyString => true
  | String c s' => p c && string_forall p s'
  end.

Definition not_underscore (c : ascii) : bool := negb (c =? "_")%char.

(** Fuel that parsing a value takes at most. *)
Fixpoint json_size (v : json) : nat :=
  match v with
  | JArr l => S (list_sum (map (fun x => S (json_size x)) l))
  | JObj m => S (list_sum (map (fun kv => S (json_size (snd kv))) m))
  | _ => 1
  end.

(** A value starts with a character that is no white space and closes no
    array or object. *)
Definition value_start (c : ascii) : bool :=
  negb (is_ws c) && negb (code c =? 93)%N && negb (code c =? 125)%N.

(** What the parser is to do with the text of one value, at any sufficient
    fuel and before any text that cannot continue a numeral. *)
Definition parses (v : json) : Prop :=
  forall fuel rest, (json_size v <= fuel)%nat -> number_stop rest = true ->
    parse_value fuel (JSON_stringify v +:+ rest) = Some (v, rest).

(** The storage entry holds the text of the collection. *)
Definition mirrored (w : World) : Prop :=
  localStorage w !! STORAGE_KEY =
  Some (JSON_stringify (JArr (map note_to_json (notes (app w))))).

(** Sample data for the closed instances below. *)
Definition demo_notes : list Note :=
  [mkNote "a" "Hello" "World" 5; mkNote "b" "foo" "bar" 7;
   mkNote "c" "HELLO" "" 5].

Definition demo_state (sel : option string) (q : string) : State :=
  mkState demo_notes sel q true false.

(** ** The rest of the component *)

(** What the main area renders:
    [addMode ? <new-note prompt> : selectedNote ? <NoteEditor> : <empty>]. *)
Inductive Pane :=
| PaneNew
| PaneEditor (note : Note)
| PaneEmpty.

Definition main_pane (st : State) : Pane :=
  if addMode st then PaneNew
  else match selectedNote st with
       | Some note => PaneEditor note
       | None => PaneEmpty
       end.

(** The first render and the effects that follow it: the persist effect
    writes the loaded collection back, the selection effect picks a note. *)
Definition mount (toLowerCase : string -> string) (width : Z)
    (ls : gmap string string) : option World :=
  st ← initial_state width ls;
  Some (mkWorld (selection_effect toLowerCase st) (persist_effect st ls)).

(** The clock readings of the creations of a run, oldest first. *)
Fixpoint created_times (ops : list Op) : list Z :=
  match ops with
  | [] => []
  | Create _ t_id _ :: ops' => t_id :: created_times ops'
  | _ :: ops' => created_times ops'
  end.

(** *** [NoteEditor]

    The two [useState] cells of the editor, [title] and [content]. *)
Record EditorText := mkEditorText {
  local_title : string;
  local_content : string
}.

(** The initial values of the cells, and what the effect on [[note.id]]
    sets them to. *)
Definition editor_reset (note : Note) : EditorText :=
  mkEditorText (title note) (content note).

(** The editor is kept while the pane shows a note; its effect runs when the
    id of the note it is given changes. *)
Definition editor_rerender (previous : Note) (note : Note) (e : EditorText)
    : EditorText :=
  if decide (id note = id previous) then e else editor_reset note.

(** [setTitle(v); onEdit(note.id, "title", v)] *)
Definition handleTitleChange (note : Note) (v : string) (now : Z)
    (e : EditorText) (st : State) : EditorText * State :=
  (mkEditorText v (local_content e), handleEditNote (id note) FTitle v now st).

(** [setContent(v); onEdit(note.id, "content", v)] *)
Definition handleContentChange (note : Note) (v : string) (now : Z)
    (e : EditorText) (st : State) : EditorText * State :=
  (mkEditorText (local_title e) v, handleEditNote (id note) FContent v now st).

(** *** [formatDate] *)

(** [s.padStart(n, c)] for a one-character filler. *)
Definition padStart (n : nat) (c : ascii) (s : string) : string :=
  string_of_list_ascii (repeat c (n - String.length s)) +:+ s.

(** [s.slice(-k)]: the last [k] characters, or all of a shorter string. *)
Definition slice_last (k : nat) (s : string) : string :=
  String.substring (String.length s - k) k s.

Section FormatDate.
(** The engine's [Date], which knows the time zone: the local calendar
    fields of a time value, and the time value after [setDate(day)]. *)
Variables getFullYear getMonth getDate : Z -> Z.
Variable setDate : Z -> Z -> Z.

Definition same_day (a b : Z) : bool :=
  (getFullYear a =? getFullYear b) && (getMonth a =? getMonth b)
  && (getDate a =? getDate b).

(** [now] is the time value of [new Date()]; a falsy [ts] is the
    number 0. *)
Definition formatDate (now ts : Z) : string :=
  if ts =? 0 then ""
  else
    let today := now in
    let dt := ts in
    if same_day today dt then "Today"
    else
      let yesterday := setDate today (getDate today - 1) in
      if same_day yesterday dt then "Yesterday"
      else
        padStart 2 "0" (Number_toString 10 (getMonth dt + 1)) +:+ "/" +:+
        padStart 2 "0" (Number_toString 10 (getDate dt)) +:+ "/" +:+
        slice_last 2 (Number_toString 10 (getFullYear dt)).
End FormatDate.

(** A [Date] for the closed instances: the calendar of a UTC time zone.
    [civil] turns a day number (days since 1970-01-01) into year, month
    (1-12) and day of the month. *)
Definition msPerDay : Z := 86400000.

Definition civil (day : Z) : Z * Z * Z :=
  let z := day + 719468 in
  let era := z / 146097 in
  let doe := z - era * 146097 in
  let yoe := (doe - doe / 1460 + doe / 36524 - doe / 146096) / 365 in
  let doy := doe - (365 * yoe + yoe / 4 - yoe / 100) in
  let mp := (5 * doy + 2) / 153 in
  let d := doy - (153 * mp + 2) / 5 + 1 in
  let m := if mp <? 10 then mp + 3 else mp - 9 in
  (yoe + era * 400 + (if m <=? 2 then 1 else 0), m, d).

Definition utc_getFullYear (t : Z) : Z := fst (fst (civil (t / msPerDay))).
Definition utc_getMonth (t : Z) : Z := snd (fst (civil (t / msPerDay))) - 1.
Definition utc_getDate (t : Z) : Z := snd (civil (t / msPerDay)).
Definition utc_setDate (t day : Z) : Z := t + (day - utc_getDate t) * msPerDay.

Definition utc_formatDate : Z -> Z -> string :=
  formatDate utc_getFullYear utc_getMonth utc_getDate utc_setDate.

(** * Properties *)

(** ** Strings *)

Lemma string_app_cons (c : ascii) (s1 s2 : string) :
  String c s1 +:+ s2 = String c (s1 +:+ s2).
Proof. reflexivity. Qed.

Lemma string_app_nil (s : string) : "" +:+ s = s.
Proof. reflexivity. Qed.

Ltac string_norm :=
  repeat (rewrite ?string_app_cons, ?string_app_nil in *).

Lemma string_app_assoc (s1 s2 s3 : string) :
  (s1 +:+ s2) +:+ s3 = s1 +:+ (s2 +:+ s3).
Proof.
  induction s1 as [|c s1 IH]; [reflexivity|].
  now rewrite !string_app_cons, IH.
Qed.

(** Appends nested to the right, literal characters in front. *)
Ltac string_assoc :=
  repeat first [rewrite string_app_assoc | rewrite string_app_cons
               | rewrite string_app_nil].

Lemma string_length_app (s1 s2 : string) :
  String.length (s1 +:+ s2) = (String.length s1 + String.length s2)%nat.
Proof.
  induction s1 as [|c s1 IH]; [reflexivity|].
  rewrite string_app_cons. simpl. now rewrite IH.
Qed.

Lemma string_forall_app (p : ascii -> bool) (s1 s2 : string) :
  string_forall p (s1 +:+ s2) = string_forall p s1 && string_forall p s2.
Proof.
  induction s1 as [|c s1 IH]; [reflexivity|].
  rewrite string_app_cons. simpl. now rewrite IH, andb_assoc.
Qed.

Lemma string_forall_impl (p q : ascii -> bool) (s : string) :
  (forall c, p c = true -> q c = true) ->
  string_forall p s = true -> string_forall q s = true.
Proof.
  intros Hpq. induction s as [|c s IH]; simpl; [reflexivity|].
  rewrite !andb_true_iff. intros [Hc Hs]. split; auto.
Qed.

(** ** Numerals *)

Lemma digit_char_code (d : N) :
  (d < 36)%N ->
  code (digit_char d) = if (d <? 10)%N then (48 + d)%N else (87 + d)%N.
Proof.
  intros Hd. unfold digit_char, code.
  destruct (N.ltb_spec d 10); apply N_ascii_embedding; lia.
Qed.

Lemma digit_val_digit_char (d : N) :
  (d < 36)%N -> digit_val (digit_char d) = d.
Proof.
  intros Hd. unfold digit_val. rewrite digit_char_code by exact Hd.
  destruct (N.ltb_spec d 10).
  - destruct (N.ltb_spec (48 + d) 58); lia.
  - destruct (N.ltb_spec (87 + d) 58); lia.
Qed.

Lemma is_decimal_digit_char (d : N) :
  (d < 10)%N -> is_decimal (digit_char d) = true.
Proof.
  intros Hd. unfold is_decimal. rewrite digit_char_code by lia.
  destruct (N.ltb_spec d 10); [|lia].
  apply andb_true_iff. split; apply N.leb_le; lia.
Qed.

Section Radix.
Variable radix : N.
Hypothesis radix_range : (2 <= radix <= 36)%N.

Lemma digits_acc (fuel : nat) (n : N) (acc : string) :
  digits radix fuel n acc = digits radix fuel n "" +:+ acc.
Proof.
  revert n acc.
  induction fuel as [|fuel IH]; intros n acc; simpl; [reflexivity|].
  destruct (n / radix =? 0)%N; [reflexivity|].
  rewrite IH. rewrite (IH _ (String _ "")).
  now rewrite string_app_assoc.
Qed.

Lemma digits_step (fuel : nat) (n : N) :
  digits radix (S fuel) n "" =
  if (n / radix =? 0)%N then String (digit_char (n mod radix)) ""
  else digits radix fuel (n / radix) ""
       +:+ String (digit_char (n mod radix)) "".
Proof.
  simpl. destruct (n / radix =? 0)%N; [reflexivity|]. apply digits_acc.
Qed.

Lemma value_app (s1 s2 : string) (acc : N) :
  numeral_value radix (s1 +:+ s2) acc =
  numeral_value radix s2 (numeral_value radix s1 acc).
Proof.
  revert acc. induction s1 as [|c s1 IH]; intros acc; [reflexivity|].
  rewrite string_app_cons. simpl. apply IH.
Qed.

Lemma mod_radix_lt (n : N) : (n mod radix < 36)%N.
Proof. pose proof (N.mod_lt n radix). lia. Qed.

Lemma div_radix_lt (fuel : nat) (n : N) :
  (n < 2 ^ N.of_nat (S fuel))%N -> (n / radix < 2 ^ N.of_nat fuel)%N.
Proof.
  intros Hn. rewrite Nat2N.inj_succ, N.pow_succ_r' in Hn.
  apply N.Div0.div_lt_upper_bound. nia.
Qed.

(** With enough fuel the numeral reads back as the number. *)
Lemma digits_value (fuel : nat) (n : N) :
  (n < 2 ^ N.of_nat fuel)%N ->
  numeral_value radix (digits radix (S fuel) n "") 0 = n.
Proof.
  revert n. induction fuel as [|fuel IH]; intros n Hn; rewrite digits_step.
  - change (2 ^ N.of_nat 0)%N with 1%N in Hn.
    assert (n = 0%N) as -> by lia.
    rewrite N.Div0.div_0_l, N.Div0.mod_0_l. simpl.
    rewrite digit_val_digit_char by lia. lia.
  - pose proof (mod_radix_lt n) as Hm.
    pose proof (N.div_mod n radix ltac:(lia)) as Hdm.
    destruct (N.eqb_spec (n / radix) 0) as [Hz|Hnz].
    + simpl. rewrite digit_val_digit_char by exact Hm.
      rewrite Hz in Hdm. lia.
    + rewrite value_app, IH by now apply div_radix_lt.
      simpl. rewrite digit_val_digit_char by exact Hm. lia.
Qed.

(** A positive number prints with a non-zero leading digit. *)
Lemma digits_head (fuel : nat) (n : N) :
  (0 < n < 2 ^ N.of_nat fuel)%N ->
  exists d s, (0 < d < radix)%N /\
    digits radix (S fuel) n "" = String (digit_char d) s.
Proof.
  revert n. induction fuel as [|fuel IH]; intros n Hn.
  - change (2 ^ N.of_nat 0)%N with 1%N in Hn. lia.
  - rewrite digits_step.
    pose proof (N.mod_lt n radix ltac:(lia)) as Hm.
    pose proof (N.div_mod n radix ltac:(lia)) as Hdm.
    destruct (N.eqb_spec (n / radix) 0) as [Hz|Hnz].
    + exists (n mod radix)%N, "". split; [|reflexivity].
      rewrite Hz in Hdm. lia.
    + destruct (IH (n / radix)%N) as (d & s & Hd & Hs).
      { split; [now apply N.neq_0_lt_0|]. apply div_radix_lt. apply Hn. }
      exists d, (s +:+ String (digit_char (n mod radix)) "").
      split; [exact Hd|]. now rewrite Hs.
Qed.

Lemma digits_forall (p : ascii -> bool) (fuel : nat) (n : N) :
  (forall d, (d < radix)%N -> p (digit_char d) = true) ->
  string_forall p (digits radix fuel n "") = true.
Proof.
  intros Hp. revert n. induction fuel as [|fuel IH]; intros n; [reflexivity|].
  pose proof (N.mod_lt n radix ltac:(lia)) as Hm.
  rewrite digits_step. destruct (n / radix =? 0)%N.
  - simpl. now rewrite Hp.
  - rewrite string_forall_app, IH. simpl. now rewrite Hp.
Qed.

Lemma N_toString_value (n : N) :
  numeral_value radix (N_toString radix n) 0 = n.
Proof.
  unfold N_toString. apply digits_value. rewrite N2Nat.id. apply N.size_gt.
Qed.

Lemma N_toString_head (p : positive) :
  exists d s, (0 < d < radix)%N /\
    N_toString radix (Npos p) = String (digit_char d) s.
Proof.
  unfold N_toString. apply digits_head. rewrite N2Nat.id.
  split; [lia|apply N.size_gt].
Qed.

Lemma N_toString_forall (p : ascii -> bool) (n : N) :
  (forall d, (d < radix)%N -> p (digit_char d) = true) ->
  string_forall p (N_toString radix n) = true.
Proof. apply digits_forall. Qed.

(** Distinct integers print differently. *)
Lemma Number_toString_inj (z z' : Z) :
  Number_toString radix z = Number_toString radix z' -> z = z'.
Proof.
  assert (Hpos : forall p q,
             N_toString radix (Npos p) = N_toString radix (Npos q) -> p = q).
  { intros p q H. apply (f_equal (fun s => numeral_value radix s 0)) in H.
    rewrite !N_toString_value in H. now injection H. }
  assert (Hzero : forall p, "0" <> N_toString radix (Npos p)).
  { intros p H. destruct (N_toString_head p) as (d & s & Hd & Hs).
    rewrite Hs in H. injection H as H _.
    apply (f_equal code) in H. rewrite digit_char_code in H by lia.
    change (code "0") with 48%N in H. destruct (d <? 10)%N; lia. }
  assert (Hsign : forall p s, N_toString radix (Npos p) <> "-" +:+ s).
  { intros p s H. destruct (N_toString_head p) as (d & r & Hd & Hs).
    rewrite Hs in H. string_norm. injection H as H _.
    apply (f_equal code) in H. rewrite digit_char_code in H by lia.
    change (code "-") with 45%N in H. destruct (d <? 10)%N; lia. }
  destruct z as [|p|p], z' as [|q|q]; simpl; intros H;
    try reflexivity.
  - now apply Hzero in H.
  - string_norm. discriminate.
  - symmetry in H. now apply Hzero in H.
  - f_equal. now apply Hpos.
  - now apply Hsign in H.
  - string_norm. discriminate.
  - symmetry in H. now apply Hsign in H.
  - string_norm. injection H as H. f_equal. now apply Hpos.
Qed.
End Radix.

(** ** JSON: parsing what was printed *)

(** *** Numbers *)

Lemma take_decimal_app (ds rest : string) :
  string_forall is_decimal ds = true -> number_stop rest = true ->
  take_decimal (ds +:+ rest) = (ds, rest).
Proof.
  intros Hds Hrest. induction ds as [|c ds IH].
  - rewrite string_app_nil. destruct rest as [|c r]; [reflexivity|].
    simpl in *. destruct (is_decimal c); [discriminate|reflexivity].
  - rewrite string_app_cons. simpl in *.
    apply andb_true_iff in Hds. destruct Hds as [Hc Hds].
    now rewrite Hc, IH.
Qed.

Lemma N_toString_decimal (n : N) :
  string_forall is_decimal (N_toString 10 n) = true.
Proof.
  apply N_toString_forall; [lia|]. intros d Hd. now apply is_decimal_digit_char.
Qed.

Lemma parse_unsigned_toString (n : N) (rest : string) :
  number_stop rest = true ->
  parse_unsigned (N_toString 10 n +:+ rest) = Some (n, rest).
Proof.
  intros Hrest. unfold parse_unsigned.
  rewrite take_decimal_app by (try apply N_toString_decimal; assumption).
  pose proof (N_toString_value 10 ltac:(lia) n) as Hv.
  destruct n as [|p].
  - change (N_toString 10 0) with "0". simpl. now rewrite Hrest.
  - destruct (N_toString_head 10 ltac:(lia) p) as (d & s & Hd & Hs).
    rewrite Hs in *.
    rewrite digit_char_code by lia.
    replace (d <? 10)%N with true by (symmetry; apply N.ltb_lt; lia).
    replace (48 + d =? 48)%N with false by (symmetry; apply N.eqb_neq; lia).
    rewrite Hrest. cbn [andb negb]. now rewrite Hv.
Qed.

Lemma parse_number_toString (z : Z) (rest : string) :
  number_stop rest = true ->
  parse_number (Number_toString 10 z +:+ rest) = Some (z, rest).
Proof.
  intros Hrest. destruct z as [|p|p]; simpl Number_toString.
  - change "0" with (N_toString 10 0).
    unfold parse_number.
    change (N_toString 10 0 +:+ rest) with (String "0" rest) at 1.
    change (code "0" =? 45)%N with false. cbv iota.
    change (String "0" rest) with (N_toString 10 0 +:+ rest).
    now rewrite parse_unsigned_toString.
  - destruct (N_toString_head 10 ltac:(lia) p) as (d & s & Hd & Hs).
    unfold parse_number.
    pose proof (parse_unsigned_toString (Npos p) rest Hrest) as Hp.
    rewrite Hs in *. rewrite string_app_cons in *.
    rewrite digit_char_code by lia.
    replace (d <? 10)%N with true by (symmetry; apply N.ltb_lt; lia).
    replace (48 + d =? 45)%N with false by (symmetry; apply N.eqb_neq; lia).
    now rewrite Hp.
  - rewrite string_app_assoc. string_norm. unfold parse_number.
    change (code "-" =? 45)%N with true. cbv iota.
    now rewrite parse_unsigned_toString.
Qed.

(** *** Strings *)

Lemma parse_string_escape_char (c : ascii) (tail : string) :
  parse_string (escape_char c +:+ tail) =
  '(str, rest) ← parse_string tail; Some (String c str, rest).
Proof.
  destruct c as [[] [] [] [] [] [] [] []]; reflexivity.
Qed.

Lemma parse_string_escape (s rest : string) :
  parse_string (escape s +:+ String dquote rest) = Some (s, rest).
Proof.
  induction s as [|c s IH]; [reflexivity|].
  simpl escape. rewrite string_app_assoc, parse_string_escape_char, IH.
  reflexivity.
Qed.

(** *** Values *)

Lemma json_ind (P : json -> Prop) :
  P JNull -> (forall b, P (JBool b)) -> (forall z, P (JNum z)) ->
  (forall s, P (JStr s)) ->
  (forall l, Forall P l -> P (JArr l)) ->
  (forall m, Forall (fun kv => P (snd kv)) m -> P (JObj m)) ->
  forall v, P v.
Proof.
  intros Hnull Hbool Hnum Hstr Harr Hobj.
  fix IH 1. intros [|b|z|s|l|m].
  - exact Hnull.
  - apply Hbool.
  - apply Hnum.
  - apply Hstr.
  - apply Harr. induction l as [|x l IHl]; constructor; [apply IH|exact IHl].
  - apply Hobj.
    induction m as [|[k x] m IHm]; constructor; [apply IH|exact IHm].
Qed.

Lemma JSON_stringify_head (v : json) :
  exists c s, JSON_stringify v = String c s /\ value_start c = true.
Proof.
  destruct v as [|[]|z|s|l|m]; try (eexists _, _; split; reflexivity).
  destruct z as [|p|p]; try (eexists _, _; split; reflexivity).
  simpl. destruct (N_toString_head 10 ltac:(lia) p) as (d & s & Hd & Hs).
  rewrite Hs. eexists _, _. split; [reflexivity|].
  unfold value_start, is_ws. rewrite digit_char_code by lia.
  replace (d <? 10)%N with true by (symmetry; apply N.ltb_lt; lia).
  repeat match goal with
         | |- context [(?a =? ?b)%N] =>
             replace (a =? b)%N with false by (symmetry; apply N.eqb_neq; lia)
         end.
  reflexivity.
Qed.

Lemma skip_ws_value_start (c : ascii) (s : string) :
  value_start c = true -> skip_ws (String c s) = String c s.
Proof.
  unfold value_start. simpl. destruct (is_ws c); [discriminate|reflexivity].
Qed.

Lemma skip_ws_other (c : ascii) (s : string) :
  is_ws c = false -> skip_ws (String c s) = String c s.
Proof. intros H. simpl. now rewrite H. Qed.

Lemma bind_Some {A B} (x : A) (f : A -> option B) : Some x ≫= f = f x.
Proof. reflexivity. Qed.

Section Roundtrip.

Lemma parse_elements_stringify (l : list json) :
  Forall parses l -> l <> [] ->
  forall fuel rest,
    (list_sum (map (fun x => S (json_size x)) l) <= fuel)%nat ->
    parse_elements fuel
      (String.concat "," (map JSON_stringify l) +:+ String "]" rest) =
    Some (l, rest).
Proof.
  induction 1 as [|v l Hv Hl IH]; [contradiction|]. intros _ fuel rest Hfuel.
  simpl in Hfuel. destruct fuel as [|fuel]; [lia|].
  destruct l as [|v2 l2].
  - cbn [map String.concat parse_elements].
    rewrite Hv by (simpl in *; first [lia|reflexivity]).
    rewrite bind_Some. cbv beta iota.
    rewrite skip_ws_other by reflexivity. reflexivity.
  - change (String.concat "," (map JSON_stringify (v :: v2 :: l2)))
      with (JSON_stringify v +:+
            "," +:+ String.concat "," (map JSON_stringify (v2 :: l2))).
    rewrite !string_app_assoc. string_norm. cbn [parse_elements].
    rewrite Hv by (simpl in *; first [lia|reflexivity]).
    rewrite bind_Some. cbv beta iota.
    rewrite skip_ws_other by reflexivity.
    change (code "," =? 44)%N with true. cbv iota.
    rewrite IH by (simpl in *; first [lia|discriminate]).
    reflexivity.
Qed.

Lemma parse_members_stringify (m : list (string * json)) :
  Forall (fun kv => parses (snd kv)) m -> m <> [] ->
  forall fuel rest,
    (list_sum (map (fun kv => S (json_size (snd kv))) m) <= fuel)%nat ->
    parse_members fuel
      (String.concat ","
         (map (fun kv => quote (fst kv) +:+ ":" +:+ JSON_stringify (snd kv)) m)
       +:+ String "}" rest) =
    Some (m, rest).
Proof.
  induction 1 as [|[k v] m Hv Hm IH]; [contradiction|].
  intros _ fuel rest Hfuel.
  simpl in Hfuel, Hv. destruct fuel as [|fuel]; [lia|].
  assert (Hkey : forall tail, number_stop tail = true ->
    parse_members (S fuel)
      ((quote k +:+ ":" +:+ JSON_stringify v) +:+ tail) =
    match skip_ws tail with
    | EmptyString => None
    | String c' r4 =>
        if (code c' =? 44)%N then
          '(m, r5) ← parse_members fuel r4; Some ((k, v) :: m, r5)
        else if (code c' =? 125)%N then Some ([(k, v)], r4)
        else None
    end).
  { intros tail Htail. unfold quote. string_assoc. cbn [parse_members].
    rewrite skip_ws_other by reflexivity.
    change (code dquote =? 34)%N with true. cbv iota.
    rewrite parse_string_escape, bind_Some. cbv beta iota.
    rewrite skip_ws_other by reflexivity.
    change (code ":" =? 58)%N with true. cbv iota.
    rewrite Hv by (first [lia|exact Htail]).
    now rewrite bind_Some. }
  destruct m as [|kv2 m2].
  - cbn [map String.concat fst snd].
    rewrite Hkey by reflexivity.
    rewrite skip_ws_other by reflexivity. reflexivity.
  - change (String.concat "," (map ?f ((k, v) :: kv2 :: m2)))
      with (f (k, v) +:+ "," +:+ String.concat "," (map f (kv2 :: m2))).
    cbv beta. cbn [fst snd].
    rewrite (string_app_assoc (quote k +:+ ":" +:+ JSON_stringify v)).
    rewrite Hkey by reflexivity.
    string_assoc.
    rewrite skip_ws_other by reflexivity.
    change (code "," =? 44)%N with true. cbv iota.
    rewrite IH by (simpl in *; first [lia|discriminate]).
    reflexivity.
Qed.

Lemma parse_value_array (fuel : nat) (c : ascii) (s : string) :
  value_start c = true ->
  parse_value (S fuel) (String "[" (String c s)) =
  '(l, r') ← parse_elements fuel (String c s); Some (JArr l, r').
Proof.
  intros Hc. cbn [parse_value]. rewrite skip_ws_other by reflexivity.
  change (code "[") with 91%N. cbn [N.eqb Pos.eqb]. cbv iota.
  rewrite skip_ws_value_start by exact Hc.
  unfold value_start in Hc.
  destruct (code c =? 93)%N; [|reflexivity].
  rewrite andb_false_r in Hc. discriminate.
Qed.

Lemma parse_value_object (fuel : nat) (s : string) :
  parse_value (S fuel) (String "{" (String dquote s)) =
  '(m, r') ← parse_members fuel (String dquote s); Some (JObj m, r').
Proof. reflexivity. Qed.

Lemma parse_value_number (fuel : nat) (c : ascii) (s : string) :
  is_decimal c = true \/ code c = 45%N ->
  parse_value (S fuel) (String c s) =
  '(z, r') ← parse_number (String c s); Some (JNum z, r').
Proof.
  intros Hc. cbn [parse_value].
  assert (Hcode : (48 <= code c <= 57 \/ code c = 45)%N).
  { destruct Hc as [Hc|Hc]; [left|now right].
    unfold is_decimal in Hc. apply andb_true_iff in Hc.
    destruct Hc as [H1 H2]. apply N.leb_le in H1, H2. lia. }
  rewrite skip_ws_other.
  2:{ unfold is_ws.
      repeat match goal with
             | |- context [(?a =? ?b)%N] =>
                 replace (a =? b)%N with false
                   by (symmetry; apply N.eqb_neq; lia)
             end.
      reflexivity. }
  repeat match goal with
         | |- context [(code c =? ?b)%N] =>
             replace (code c =? b)%N with false
               by (symmetry; apply N.eqb_neq; lia)
         end.
  reflexivity.
Qed.

Lemma Number_toString_head (z : Z) :
  exists c s, Number_toString 10 z = String c s /\
    (is_decimal c = true \/ code c = 45%N).
Proof.
  destruct z as [|p|p]; simpl.
  - eexists _, _. split; [reflexivity|now left].
  - destruct (N_toString_head 10 ltac:(lia) p) as (d & s & Hd & Hs).
    rewrite Hs. eexists _, _. split; [reflexivity|left].
    apply is_decimal_digit_char. lia.
  - eexists _, _. split; [reflexivity|now right].
Qed.

Lemma parse_value_stringify (v : json) : parses v.
Proof.
  induction v as [|b|z|s|l IHl|m IHm] using json_ind;
    intros fuel rest Hfuel Hrest;
    (destruct fuel as [|fuel]; [simpl in Hfuel; lia|]).
  - reflexivity.
  - destruct b; reflexivity.
  - destruct (Number_toString_head z) as (c & s & Hs & Hc).
    pose proof (parse_number_toString z rest Hrest) as Hp.
    simpl JSON_stringify in *. rewrite Hs in *. rewrite string_app_cons in *.
    rewrite parse_value_number by exact Hc. now rewrite Hp.
  - simpl JSON_stringify. unfold quote. string_assoc.
    cbn [parse_value]. rewrite skip_ws_other by reflexivity.
    change (code dquote) with 34%N. cbn [N.eqb Pos.eqb]. cbv iota.
    now rewrite parse_string_escape.
  - destruct l as [|v l]; [reflexivity|].
    simpl in Hfuel.
    pose proof (parse_elements_stringify (v :: l) IHl ltac:(discriminate)
                  fuel rest ltac:(simpl; lia)) as Hp.
    cbn [JSON_stringify]. string_assoc.
    destruct (JSON_stringify_head v) as (c & s & Hs & Hc).
    assert (Hhead : exists s', 
      String.concat "," (map JSON_stringify (v :: l)) +:+ String "]" rest
      = String c s').
    { destruct l; cbn [map String.concat]; rewrite Hs; string_assoc; eauto. }
    destruct Hhead as [s' Hs']. rewrite Hs' in *.
    rewrite parse_value_array by exact Hc. now rewrite Hp.
  - destruct m as [|[k v] m]; [reflexivity|].
    simpl in Hfuel.
    pose proof (parse_members_stringify ((k, v) :: m) IHm ltac:(discriminate)
                  fuel rest ltac:(simpl; lia)) as Hp.
    cbn [JSON_stringify]. string_assoc.
    assert (Hhead : exists s',
      String.concat ","
        (map (fun kv => quote (fst kv) +:+ ":" +:+ JSON_stringify (snd kv))
           ((k, v) :: m)) +:+ String "}" rest
      = String dquote s').
    { destruct m; cbn [map String.concat fst]; unfold quote at 1;
        string_assoc; eauto. }
    destruct Hhead as [s' Hs']. rewrite Hs' in *.
    rewrite parse_value_object. now rewrite Hp.
Qed.
End Roundtrip.

(** *** Fuel *)

Lemma concat_length_elems (l : list json) :
  Forall (fun v => (json_size v <= String.length (JSON_stringify v))%nat) l ->
  (list_sum (map (fun x => S (json_size x)) l) <=
   S (String.length (String.concat "," (map JSON_stringify l))))%nat.
Proof.
  induction 1 as [|v l Hv Hl IH]; [simpl; lia|].
  destruct l as [|v2 l2].
  - simpl in *. lia.
  - change (String.concat "," (map JSON_stringify (v :: v2 :: l2)))
      with (JSON_stringify v +:+
            "," +:+ String.concat "," (map JSON_stringify (v2 :: l2))).
    rewrite !string_length_app.
    change (String.length ",") with 1%nat.
    change (list_sum (map (fun x => S (json_size x)) (v :: v2 :: l2)))
      with (S (json_size v) +
            list_sum (map (fun x => S (json_size x)) (v2 :: l2)))%nat.
    lia.
Qed.

Lemma concat_length_members (m : list (string * json)) :
  Forall (fun kv => (json_size (snd kv) <=
                     String.length (JSON_stringify (snd kv)))%nat) m ->
  (list_sum (map (fun kv => S (json_size (snd kv))) m) <=
   S (String.length
        (String.concat ","
           (map (fun kv => quote (fst kv) +:+ ":" +:+ JSON_stringify (snd kv))
              m))))%nat.
Proof.
  induction 1 as [|[k v] m Hv Hm IH]; [simpl; lia|].
  destruct m as [|kv2 m2].
  - cbn [map String.concat list_sum foldr fst snd] in *.
    rewrite !string_length_app.
    change (String.length ":") with 1%nat. lia.
  - change (String.concat "," (map ?f ((k, v) :: kv2 :: m2)))
      with (f (k, v) +:+ "," +:+ String.concat "," (map f (kv2 :: m2))).
    cbv beta. cbn [fst snd] in *.
    rewrite !string_length_app.
    change (list_sum (map ?g ((k, v) :: kv2 :: m2)))
      with (g (k, v) + list_sum (map g (kv2 :: m2)))%nat.
    cbv beta. cbn [snd].
    change (String.length ":") with 1%nat.
    change (String.length ",") with 1%nat. lia.
Qed.

(** The text of a value is at least as long as the fuel it needs. *)
Lemma json_size_length (v : json) :
  (json_size v <= String.length (JSON_stringify v))%nat.
Proof.
  induction v as [|b|z|s|l IHl|m IHm] using json_ind.
  - simpl. lia.
  - destruct b; simpl; lia.
  - destruct (Number_toString_head z) as (c & s & Hs & _).
    simpl. rewrite Hs. simpl. lia.
  - simpl. lia.
  - pose proof (concat_length_elems l IHl).
    cbn [JSON_stringify json_size]. rewrite !string_length_app. simpl. lia.
  - pose proof (concat_length_members m IHm).
    cbn [JSON_stringify json_size]. rewrite !string_length_app. simpl. lia.
Qed.

(** Parsing the text of a value gives the value back. *)
Lemma JSON_parse_stringify (v : json) : JSON_parse (JSON_stringify v) = Some v.
Proof.
  unfold JSON_parse.
  pose proof (parse_value_stringify v (String.length (JSON_stringify v)) ""
                (json_size_length v) eq_refl) as H.
  assert (Hnil : forall s, s +:+ "" = s).
  { induction s as [|c s IH]; [reflexivity|]. now rewrite string_app_cons, IH. }
  rewrite Hnil in H. now rewrite H.
Qed.

(** ** The sort *)

Section SortFacts.
Context {A : Type} (comparefn : A -> A -> Z).

Local Abbreviation before := (before comparefn).

Lemma sort_insert_perm (x : A) (l : list A) :
  Permutation (sort_insert comparefn x l) (x :: l).
Proof.
  induction l as [|y l IH]; simpl; [reflexivity|].
  destruct (comparefn x y <=? 0); [reflexivity|].
  rewrite IH. apply perm_swap.
Qed.

Lemma sort_perm (l : list A) : Permutation (sort comparefn l) l.
Proof.
  induction l as [|x l IH]; simpl; [reflexivity|].
  rewrite sort_insert_perm. now constructor.
Qed.

Hypothesis before_total : forall x y, before x y \/ before y x.
Hypothesis before_trans : forall x y z, before x y -> before y z -> before x z.

Lemma sort_insert_sorted (x : A) (l : list A) :
  StronglySorted before l -> StronglySorted before (sort_insert comparefn x l).
Proof.
  induction 1 as [|y l Hs IH Hall]; simpl.
  - repeat constructor.
  - destruct (Z.leb_spec (comparefn x y) 0) as [Hle|Hgt].
    + constructor; [now constructor|].
      constructor; [exact Hle|].
      eapply Forall_impl; [exact Hall|].
      intros z Hz. eapply before_trans; eauto.
    + constructor; [exact IH|].
      rewrite sort_insert_perm. constructor; [|exact Hall].
      destruct (before_total x y) as [H|H]; [unfold before in H; lia|exact H].
Qed.

Lemma sort_sorted (l : list A) : StronglySorted before (sort comparefn l).
Proof.
  induction l as [|x l IH]; simpl; [constructor|].
  now apply sort_insert_sorted.
Qed.
End SortFacts.

Lemma StronglySorted_mono {A} (R R' : A -> A -> Prop) (l : list A) :
  (forall x y, R x y -> R' x y) -> StronglySorted R l -> StronglySorted R' l.
Proof.
  intros HR. induction 1 as [|x l Hs IH Hall]; constructor; [exact IH|].
  eapply Forall_impl; [exact Hall|]. intros y. apply HR.
Qed.

Lemma sort_by_updated_sorted (l : list Note) :
  StronglySorted newer_first (sort by_updated_desc l).
Proof.
  apply (StronglySorted_mono (before by_updated_desc)).
  - unfold before, by_updated_desc, newer_first. intros; lia.
  - apply sort_sorted; unfold before, by_updated_desc; intros; lia.
Qed.

(** Notes with equal timestamps keep their relative order. *)
Lemma sort_by_updated_stable (k : Z) (l : list Note) :
  List.filter (fun n => updated n =? k) (sort by_updated_desc l) =
  List.filter (fun n => updated n =? k) l.
Proof.
  induction l as [|x l IH]; [reflexivity|].
  change (sort by_updated_desc (x :: l))
    with (sort_insert by_updated_desc x (sort by_updated_desc l)).
  change (List.filter (fun n => updated n =? k) (x :: l))
    with (if updated x =? k then x :: List.filter (fun n => updated n =? k) l
          else List.filter (fun n => updated n =? k) l).
  rewrite <- IH. clear IH.
  induction (sort by_updated_desc l) as [|y s IHs]; [reflexivity|].
  simpl. unfold by_updated_desc at 1.
  destruct (Z.leb_spec (updated y - updated x) 0) as [Hle|Hgt]; [reflexivity|].
  simpl. rewrite IHs.
  destruct (Z.eqb_spec (updated x) k), (Z.eqb_spec (updated y) k);
    try reflexivity; lia.
Qed.


(** ** Substrings *)

Lemma prefix_spec (q s : string) :
  String.prefix q s = true <-> exists post, s = q +:+ post.
Proof.
  revert s. induction q as [|c q IH]; intros s.
  - split; [intros _; now exists s|]. intros _. now destruct s.
  - destruct s as [|d s]; simpl.
    + split; [discriminate|]. intros [post H]. discriminate.
    + destruct (Ascii.ascii_dec c d) as [->|Hne].
      * rewrite IH. split; intros [post H]; exists post.
        -- now rewrite H.
        -- now injection H.
      * split; [discriminate|]. intros [post H]. injection H. congruence.
  Qed.

Lemma includes_spec (s q : string) :
  includes s q = true <-> exists pre post, s = pre +:+ q +:+ post.
Proof.
  induction s as [|c s IH].
  - cbn [includes]. rewrite orb_false_r, prefix_spec. split.
    + intros [post H]. now exists "", post.
    + intros [pre [post H]]. destruct pre; [now exists post|discriminate].
  - cbn [includes]. rewrite orb_true_iff, prefix_spec, IH. split.
    + intros [[post H]|[pre [post H]]].
      * now exists "", post.
      * exists (String c pre), post. simpl. now rewrite H.
    + intros [pre [post H]]. destruct pre as [|d pre].
      * left. now exists post.
      * right. exists pre, post. simpl in H. now injection H.
Qed.


(** ** The filtered view and the selection effect *)

Section View.
Variable toLowerCase : string -> string.

Lemma matches_spec (q : string) (n : Note) :
  matches toLowerCase (toLowerCase q) n = true <->
  (exists pre post, toLowerCase (title n) = pre +:+ toLowerCase q +:+ post) \/
  (exists pre post, toLowerCase (content n) = pre +:+ toLowerCase q +:+ post).
Proof.
  unfold matches.
  now rewrite orb_true_iff, !includes_spec.
Qed.

Lemma getFilteredNotes_perm (st : State) :
  Permutation (getFilteredNotes toLowerCase st)
    (if decide (query st = "") then notes st
     else List.filter (matches toLowerCase (toLowerCase (query st)))
            (notes st)).
Proof.
  unfold getFilteredNotes. destruct (decide (query st = "")); apply sort_perm.
Qed.

Lemma getFilteredNotes_sorted (st : State) :
  StronglySorted newer_first (getFilteredNotes toLowerCase st).
Proof.
  unfold getFilteredNotes.
  destruct (decide (query st = "")); apply sort_by_updated_sorted.
Qed.


(** C6. With the empty query the view is a rearrangement of the whole
    collection (same notes, same multiplicities) and is sorted by
    [updated], largest first. *)
Theorem getFilteredNotes_empty_query (l : list Note) (sel : option string)
    (open adding : bool) :
  Permutation (getFilteredNotes toLowerCase (mkState l sel "" open adding)) l /\
  StronglySorted newer_first
    (getFilteredNotes toLowerCase (mkState l sel "" open adding)).
Proof.
  split; [|apply getFilteredNotes_sorted].
  apply (getFilteredNotes_perm (mkState l sel "" open adding)).
Qed.

(** C2. The selection effect leaves notes and query alone; a selection
    that is not the id of a note of the view (none included) is replaced by
    the id of the first note of the view, or by none when the view is
    empty; a selection that is in the view stays. *)
Theorem selection_effect_fallback (st : State) :
  let view_ids := map id (getFilteredNotes toLowerCase st) in
  let st' := selection_effect toLowerCase st in
  notes st' = notes st /\ query st' = query st /\
  ((forall s, selectedId st = Some s -> ~ In s view_ids) ->
     selectedId st' = head view_ids) /\
  (forall s, selectedId st = Some s -> In s view_ids ->
     selectedId st' = Some s).
Proof.
  unfold selection_effect. cbv zeta.
  destruct (map id (getFilteredNotes toLowerCase st)) as [|first rest] eqn:Hv.
  - simpl. repeat split; auto. intros s _ [].
  - destruct (selectedId st) as [s|] eqn:Hsel.
    + destruct (bool_decide_reflect (s ∈ first :: rest)) as [Hin|Hout].
      * repeat split; auto.
        -- intros Habs. exfalso. apply (Habs s eq_refl).
           now apply list_elem_of_In.
        -- intros s' Hs' _. now rewrite Hsel.
      * simpl. repeat split; auto.
        intros s' Hs' Hin. exfalso. apply Hout. apply list_elem_of_In.
        now injection Hs' as ->.
    + simpl. repeat split; auto. discriminate.
Qed.

(** The view reads [notes] and [query] only. *)
Lemma getFilteredNotes_ext (st st' : State) :
  notes st = notes st' -> query st = query st' ->
  getFilteredNotes toLowerCase st = getFilteredNotes toLowerCase st'.
Proof. unfold getFilteredNotes. now intros -> ->. Qed.

Lemma selection_effect_view (st : State) :
  getFilteredNotes toLowerCase (selection_effect toLowerCase st) =
  getFilteredNotes toLowerCase st.
Proof.
  apply getFilteredNotes_ext; unfold selection_effect;
    destruct (map id (getFilteredNotes toLowerCase st)); try reflexivity;
    destruct (match selectedId st with Some _ => _ | None => _ end);
    reflexivity.
Qed.

(** The effect settles at once: running it again changes nothing. *)
Lemma selection_effect_idempotent (st : State) :
  selection_effect toLowerCase (selection_effect toLowerCase st) =
  selection_effect toLowerCase st.
Proof.
  unfold selection_effect at 1. cbv zeta. rewrite selection_effect_view.
  unfold selection_effect. cbv zeta.
  destruct (map id (getFilteredNotes toLowerCase st)) as [|first rest] eqn:Hv;
    [reflexivity|].
  destruct (selectedId st) as [s|] eqn:Hsel.
  - destruct (bool_decide_reflect (s ∈ first :: rest)) as [Hin|Hout].
    + rewrite Hsel. now rewrite bool_decide_eq_true_2.
    + simpl. rewrite bool_decide_eq_true_2; [reflexivity|constructor].
  - simpl. rewrite bool_decide_eq_true_2; [reflexivity|constructor].
Qed.
End View.


(** ** Editing *)

Lemma patch_id_other (field : Field) (value : string) (now : Z) (n : Note) :
  field <> FId -> id (patch field value now n) = id n.
Proof. destruct field; [contradiction| |]; reflexivity. Qed.

Lemma patch_get_same (field : Field) (value : string) (now : Z) (n : Note) :
  get_field field (patch field value now n) = value.
Proof. destruct field; reflexivity. Qed.

Lemma patch_get_other (field g : Field) (value : string) (now : Z) (n : Note) :
  g <> field -> get_field g (patch field value now n) = get_field g n.
Proof. destruct field, g; intros H; try reflexivity; contradiction. Qed.

Lemma handleEditNote_lookup (i : string) (field : Field) (value : string)
    (now : Z) (st : State) (k : nat) :
  notes (handleEditNote i field value now st) !! k =
  (fun n => if decide (id n = i) then patch field value now n else n)
    <$> notes st !! k.
Proof. unfold handleEditNote. simpl. apply list_lookup_fmap. Qed.

(** C8. [handleEditNote] is a partial patch.  The collection keeps its
    length and the other state cells are untouched; at every position, a
    note whose id differs from the given one is unchanged, and a note with
    the given id gets the value in the named field and the clock reading in
    [updated], its other fields as before. *)
Theorem handleEditNote_partial_patch (i : string) (field : Field)
    (value : string) (now : Z) (st : State) :
  let st' := handleEditNote i field value now st in
  length (notes st') = length (notes st) /\
  selectedId st' = selectedId st /\ query st' = query st /\
  forall (k : nat) (n : Note), notes st !! k = Some n ->
    exists n', notes st' !! k = Some n' /\
      (id n <> i -> n' = n) /\
      (id n = i ->
         get_field field n' = value /\ updated n' = now /\
         forall g, g <> field -> get_field g n' = get_field g n).
Proof.
  cbv zeta. split; [apply length_map|]. do 2 (split; [reflexivity|]).
  intros k n Hk. rewrite handleEditNote_lookup, Hk. simpl.
  eexists; split; [reflexivity|].
  destruct (decide (id n = i)) as [He|Hne]; split; try contradiction; auto.
  intros _. split; [apply patch_get_same|]. split; [reflexivity|].
  intros g. apply patch_get_other.
Qed.

(** C3, as the code has it.  Editing the title or the content of a note
    keeps its id and stores the clock reading of the edit in [updated]; the
    new value is later than the old one exactly when the clock has moved
    past it. *)
Theorem handleEditNote_stamps_now (field : Field) (value : string) (now : Z)
    (st : State) (k : nat) (n : Note) :
  field <> FId ->
  notes st !! k = Some n ->
  exists n', notes (handleEditNote (id n) field value now st) !! k = Some n' /\
    id n' = id n /\ updated n' = now /\
    (updated n < updated n' <-> updated n < now).
Proof.
  intros Hf Hk. rewrite handleEditNote_lookup, Hk. simpl.
  rewrite decide_True by reflexivity.
  eexists; split; [reflexivity|].
  split; [now apply patch_id_other|]. split; reflexivity.
Qed.

(** C3 fails as stated: a title edit in the millisecond the note was last
    stamped leaves [updated] where it was, not later. *)
Lemma handleEditNote_same_millisecond :
  notes (handleEditNote "a" FTitle "U" 1000
           (mkState [mkNote "a" "Untitled Note" "" 1000] (Some "a") "" true
              false))
    = [mkNote "a" "U" "" 1000] /\
  ~ (updated (mkNote "a" "Untitled Note" "" 1000)
     < updated (mkNote "a" "U" "" 1000)).
Proof. split; [reflexivity|]. simpl. lia. Qed.

(** ** Creating *)

(** C10. The created note is [{id, "Untitled Note", "", created}] with
    [created] the clock reading of its creation; it is put in front of the
    collection, and it is the same note whatever the collection holds. *)
Theorem handleAddNote_initial_fields (rnd : string) (t_id created : Z)
    (st : State) :
  let note := new_note rnd t_id created in
  notes (handleAddNote rnd t_id created st) = note :: notes st /\
  title note = "Untitled Note" /\ content note = "" /\
  updated note = created /\
  forall st', head (notes (handleAddNote rnd t_id created st')) = Some note.
Proof. cbv zeta. repeat split. Qed.


(** ** [generateId] *)

Lemma not_underscore_digit_char (d : N) :
  (d < 36)%N -> not_underscore (digit_char d) = true.
Proof.
  intros Hd. unfold not_underscore.
  destruct (Ascii.eqb_spec (digit_char d) "_") as [He|]; [|reflexivity].
  apply (f_equal code) in He. rewrite digit_char_code in He by exact Hd.
  change (code "_") with 95%N in He.
  destruct (N.ltb_spec d 10); lia.
Qed.

Lemma Number_toString_not_underscore (z : Z) :
  string_forall not_underscore (Number_toString 36 z) = true.
Proof.
  assert (HN : forall n, string_forall not_underscore (N_toString 36 n) = true).
  { intros n. apply N_toString_forall; [lia|]. intros d Hd.
    now apply not_underscore_digit_char. }
  destruct z; simpl; [reflexivity|apply HN|].
  string_assoc. simpl. apply HN.
Qed.


(** A string is cut in one way only at its last underscore. *)
Lemma last_underscore_split (a a' b b' : string) :
  string_forall not_underscore b = true ->
  string_forall not_underscore b' = true ->
  a +:+ "_" +:+ b = a' +:+ "_" +:+ b' -> a = a' /\ b = b'.
Proof.
  intros Hb Hb'. revert a'.
  induction a as [|c a IH]; intros [|c' a'] H; string_norm.
  - injection H as ->. now split.
  - injection H as <- ->. rewrite string_forall_app in Hb.
    simpl in Hb. rewrite andb_false_r in Hb. discriminate.
  - injection H as -> <-. rewrite string_forall_app in Hb'.
    simpl in Hb'. rewrite andb_false_r in Hb'. discriminate.
  - injection H as -> H. destruct (IH _ H) as [-> ->]. now split.
Qed.

(** Two generated ids coincide only when both the random digits and the
    clock reading do. *)
Lemma generateId_inj (rnd rnd' : string) (t t' : Z) :
  generateId rnd t = generateId rnd' t' ->
  substr 2 9 rnd = substr 2 9 rnd' /\ t = t'.
Proof.
  unfold generateId. intros H.
  apply (inj (String.append "note_")) in H.
  apply last_underscore_split in H; try apply Number_toString_not_underscore.
  destruct H as [Ha Hb]. split; [exact Ha|].
  now apply (Number_toString_inj 36 ltac:(lia)).
Qed.


(** What the handler writes.  The created note is put in front and named by
    [selectedId], and [selectedNote] finds it.  Its id is [generateId]'s
    string and is compared with no existing id: it differs from every
    existing generated id whose random digits or clock reading differ, and
    where it occurs in no existing note the ids stay pairwise distinct. *)
Lemma handleAddNote_writes (rnd : string) (t_id created : Z)
    (st : State) :
  let st' := handleAddNote rnd t_id created st in
  let note := new_note rnd t_id created in
  notes st' = note :: notes st /\
  id note = generateId rnd t_id /\
  selectedId st' = Some (id note) /\
  selectedNote st' = Some note /\
  (forall n r t, In n (notes st) -> id n = generateId r t ->
     t <> t_id \/ substr 2 9 r <> substr 2 9 rnd -> id n <> id note) /\
  (NoDup (ids (notes st)) -> ~ In (id note) (ids (notes st)) ->
     NoDup (ids (notes st'))).
Proof.
  cbv zeta. split; [reflexivity|]. split; [reflexivity|].
  split; [reflexivity|]. split.
  - unfold selectedNote, handleAddNote. simpl.
    now rewrite bool_decide_eq_true_2.
  - split.
    + intros n r t _ Hn Hne He. rewrite Hn in He. simpl in He.
      apply generateId_inj in He. destruct He as [Hr Ht].
      destruct Hne as [Hne|Hne]; [now apply Hne|now apply Hne].
    + intros Hnd Hfresh. simpl. apply NoDup_cons. split; [|exact Hnd].
      intros Hin. apply Hfresh. now apply list_elem_of_In.
Qed.

(** When the random digits and the clock reading repeat, the created note
    gets an id that a note of the collection already has. *)
Lemma handleAddNote_id_collision :
  head (notes (handleAddNote "0.4fzyo82mvyr" 1730000000000 1730000000001
                 (mkState
                    [new_note "0.4fzyo82mvyr" 1730000000000 1730000000000]
                    None "" true false)))
    = Some (new_note "0.4fzyo82mvyr" 1730000000000 1730000000001) /\
  In (id (new_note "0.4fzyo82mvyr" 1730000000000 1730000000001))
     (ids [new_note "0.4fzyo82mvyr" 1730000000000 1730000000000]) /\
  id (new_note "0.4fzyo82mvyr" 1730000000000 1730000000001)
    = "note_4fzyo82mv_m2r1bz7k".
Proof. split; [reflexivity|]. split; [now left|reflexivity]. Qed.

(** ** Deleting *)

Lemma at_index_nat {A} (l : list A) (j : nat) : at_index l (Z.of_nat j) = l !! j.
Proof.
  unfold at_index. destruct (Z.ltb_spec (Z.of_nat j) 0); [lia|].
  now rewrite Nat2Z.id.
Qed.


(** The handler never reads outside the array. *)
Lemma handleDeleteNote_total (confirmed : bool) (i : string) (st : State) :
  is_Some (handleDeleteNote confirmed i st).
Proof.
  unfold handleDeleteNote. destruct confirmed; simpl; [|eauto].
  set (idx := findIndex _ _).
  assert (Hidx : -1 <= idx < Z.of_nat (length (notes st))).
  { unfold idx, findIndex.
    destruct (list_find _ _) as [[k x]|] eqn:Hf; [|lia].
    apply list_find_Some in Hf. destruct Hf as [Hk _].
    apply lookup_lt_Some in Hk. lia. }
  destruct (Z.ltb_spec 1 (Z.of_nat (length (notes st)))) as [Hlen|Hlen];
    [|simpl; eauto].
  assert (Hat : forall z, 0 <= z < Z.of_nat (length (notes st)) ->
                          is_Some (at_index (notes st) z)).
  { intros z Hz. rewrite <- (Z2Nat.id z) by lia. rewrite at_index_nat.
    apply lookup_lt_is_Some. lia. }
  destruct (Z.eqb_spec idx (Z.of_nat (length (notes st)) - 1)) as [He|Hne].
  - destruct (Hat (idx - 1)) as [n Hn]; [lia|]. rewrite Hn. simpl. eauto.
  - destruct (Hat (idx + 1)) as [n Hn]; [lia|]. rewrite Hn. simpl. eauto.
Qed.

(** Declining the confirmation leaves the state as it is. *)
Lemma handleDeleteNote_declined (i : string) (st : State) :
  handleDeleteNote false i st = Some st.
Proof. reflexivity. Qed.




(** ** Selection after the handlers, with no search running *)

Section Settled.
Variable toLowerCase : string -> string.

(** A selection that is in the view survives the effect. *)
Lemma selection_effect_visible (st : State) (s : string) :
  selectedId st = Some s ->
  In s (map id (getFilteredNotes toLowerCase st)) ->
  selection_effect toLowerCase st = st.
Proof.
  intros Hsel Hin. unfold selection_effect. cbv zeta.
  destruct (map id (getFilteredNotes toLowerCase st)) as [|first rest];
    [destruct Hin|].
  rewrite Hsel, bool_decide_eq_true_2; [reflexivity|].
  now apply list_elem_of_In.
Qed.

Lemma view_ids_empty_query (st : State) (s : string) :
  query st = "" ->
  In s (map id (getFilteredNotes toLowerCase st)) <-> In s (ids (notes st)).
Proof.
  intros Hq. pose proof (getFilteredNotes_perm toLowerCase st) as Hp.
  rewrite decide_True in Hp by exact Hq.
  split; apply Permutation_in; apply Permutation_map;
    [exact Hp|symmetry; exact Hp].
Qed.

(** With the empty query the whole collection is in view, so the effect
    keeps the note that [handleAddNote] selected. *)
Lemma handleAddNote_settled (rnd : string) (t_id created : Z) (st : State) :
  query st = "" ->
  selection_effect toLowerCase (handleAddNote rnd t_id created st) =
  handleAddNote rnd t_id created st.
Proof.
  intros Hq. apply (selection_effect_visible _ (generateId rnd t_id));
    [reflexivity|].
  apply view_ids_empty_query; [exact Hq|]. now left.
Qed.

(** Likewise for a selection that names a note left after a deletion. *)
Lemma handleDeleteNote_settled (i : string) (st st' : State) (n : Note) :
  query st = "" ->
  handleDeleteNote true i st = Some st' ->
  selectedId st' = Some (id n) -> In n (notes st') ->
  selection_effect toLowerCase st' = st'.
Proof.
  intros Hq Hdel Hsel Hin.
  apply (selection_effect_visible _ (id n)); [exact Hsel|].
  apply view_ids_empty_query; [|now apply in_map].
  unfold handleDeleteNote in Hdel. simpl in Hdel.
  destruct (if 1 <? _ then _ else _); [|discriminate].
  simpl in Hdel. injection Hdel as <-. exact Hq.
Qed.
End Settled.

(** ** Persistence *)

Lemma json_to_note_to_json (n : Note) : json_to_note (note_to_json n) = Some n.
Proof. destruct n. reflexivity. Qed.

Lemma json_to_notes_to_json (l : list Note) :
  json_to_notes (JArr (map note_to_json l)) = Some l.
Proof.
  simpl. induction l as [|n l IH]; [reflexivity|].
  cbn [map mapM]. rewrite json_to_note_to_json, bind_Some.
  fold (mapM json_to_note (map note_to_json l)). now rewrite IH.
Qed.

(** C9. Writing the collection to its storage entry and loading the entry
    again gives the collection back: the same notes with the same id, title,
    content and timestamp, in the same order; a first render from that
    storage starts with exactly these notes. *)
Theorem persist_then_load (st : State) (ls : gmap string string) :
  load_notes (persist_effect st ls) = Some (notes st) /\
  forall width,
    initial_state width (persist_effect st ls) =
    Some (mkState (notes st) None "" (600 <? width) false).
Proof.
  assert (Hload : load_notes (persist_effect st ls) = Some (notes st)).
  { unfold load_notes, persist_effect. rewrite lookup_insert_eq.
    destruct (decide (JSON_stringify (JArr (map note_to_json (notes st))) = ""))
      as [He|_]; [discriminate He|].
    rewrite JSON_parse_stringify, bind_Some. apply json_to_notes_to_json. }
  split; [exact Hload|]. intros width. unfold initial_state. now rewrite Hload.
Qed.

(** ** Stored order *)

Lemma selection_effect_notes (toLowerCase : string -> string) (st : State) :
  notes (selection_effect toLowerCase st) = notes st.
Proof.
  unfold selection_effect. cbv zeta.
  destruct (map id (getFilteredNotes toLowerCase st)); [reflexivity|].
  destruct (match selectedId st with Some _ => _ | None => _ end); reflexivity.
Qed.

Lemma handleEditNote_ids (i : string) (field : Field) (value : string)
    (now : Z) (st : State) :
  field <> FId -> ids (notes (handleEditNote i field value now st)) = ids (notes st).
Proof.
  intros Hf. unfold handleEditNote, ids. simpl. rewrite map_map.
  apply map_ext. intros n. destruct (decide (id n = i)); [|reflexivity].
  now apply patch_id_other.
Qed.

Lemma remaining_ids_sublist (i : string) (l : list Note) :
  ids (List.filter (fun n => negb (bool_decide (id n = i))) l) `sublist_of` ids l.
Proof.
  induction l as [|n l IH]; simpl; [constructor|].
  destruct (negb (bool_decide (id n = i))); simpl; now constructor.
Qed.

Lemma handleDeleteNote_ids (confirmed : bool) (i : string) (st st' : State) :
  handleDeleteNote confirmed i st = Some st' ->
  ids (notes st') `sublist_of` ids (notes st).
Proof.
  unfold handleDeleteNote. destruct confirmed; simpl.
  - destruct (if 1 <? _ then _ else _); [|discriminate].
    simpl. intros [= <-]. apply remaining_ids_sublist.
  - now intros [= <-].
Qed.

Section RunFacts.
Variable toLowerCase : string -> string.

Local Abbreviation step := (step toLowerCase).
Local Abbreviation run := (run toLowerCase).

Lemma step_total (op : Op) (w : World) : is_Some (step op w).
Proof.
  unfold step.
  assert (H : is_Some (apply_op op (app w))).
  { destruct op; simpl; eauto. apply handleDeleteNote_total. }
  destruct H as [st' ->]. simpl. eauto.
Qed.

Lemma step_notes (op : Op) (w w' : World) :
  step op w = Some w' ->
  exists st', apply_op op (app w) = Some st' /\ notes (app w') = notes st'.
Proof.
  unfold step. destruct (apply_op op (app w)) as [st'|] eqn:Hop;
    [|discriminate].
  simpl. intros [= <-]. exists st'. split; [reflexivity|].
  destruct op as [| | |i []]; simpl; try apply selection_effect_notes.
  simpl in Hop. now injection Hop as <-.
Qed.

Lemma step_mirrored (op : Op) (w w' : World) :
  step op w = Some w' -> mirrored w -> mirrored w'.
Proof.
  unfold step. destruct (apply_op op (app w)) as [st'|]; [|discriminate].
  simpl. intros [= <-] Hm.
  destruct (sets_notes op); [|exact Hm].
  unfold mirrored, persist_effect. simpl.
  rewrite selection_effect_notes. apply lookup_insert_eq.
Qed.

(** After an operation that set [notes], the selection is where the
    effect wants it. *)
Lemma step_settled (op : Op) (w w' : World) :
  step op w = Some w' -> sets_notes op = true ->
  selection_effect toLowerCase (app w') = app w'.
Proof.
  unfold step. destruct (apply_op op (app w)) as [st'|]; [|discriminate].
  simpl. intros [= <-] ->. simpl. apply selection_effect_idempotent.
Qed.

Lemma step_ids (op : Op) (w w' : World) :
  step op w = Some w' ->
  ids (notes (app w')) `sublist_of`
    rev (created_ids [op]) ++ ids (notes (app w)).
Proof.
  intros Hstep. destruct (step_notes op w w' Hstep) as (st' & Hop & ->).
  destruct op as [rnd t_id created|i v now|i v now|i confirmed];
    simpl in Hop |- *.
  - injection Hop as <-. reflexivity.
  - injection Hop as <-. now rewrite handleEditNote_ids.
  - injection Hop as <-. now rewrite handleEditNote_ids.
  - eapply handleDeleteNote_ids. exact Hop.
Qed.

Lemma created_ids_cons (op : Op) (ops : list Op) :
  created_ids (op :: ops) = created_ids [op] ++ created_ids ops.
Proof. destruct op; reflexivity. Qed.

(** C7, as the code has it.  A run of create, edit and delete operations
    always goes through; [handleAddNote] puts the created note in front of
    the collection, edits keep every note in its place and a deletion
    closes the gap, so the stored ids are a subsequence of the created ids,
    youngest first, followed by the ids the run started with; the storage
    entry keeps holding the text of the collection in that same order. *)
Theorem stored_order_newest_first (ops : list Op) (w : World) :
  exists w',
    run ops w = Some w' /\
    ids (notes (app w')) `sublist_of`
      rev (created_ids ops) ++ ids (notes (app w)) /\
    (mirrored w -> mirrored w') /\
    forall rnd t_id created,
      exists w1, step (Create rnd t_id created) w' = Some w1 /\
        notes (app w1) = new_note rnd t_id created :: notes (app w').
Proof.
  revert w. induction ops as [|op ops IH]; intros w.
  - exists w. split; [reflexivity|]. split; [reflexivity|].
    split; [auto|]. intros rnd t_id created. eexists. split; [reflexivity|].
    simpl. apply selection_effect_notes.
  - destruct (step_total op w) as [w1 H1].
    destruct (IH w1) as (w' & Hrun & Hsub & Hmir & Hnew).
    exists w'. split; [simpl; now rewrite H1|].
    split; [|split; [|exact Hnew]].
    + rewrite created_ids_cons, rev_app_distr, <- app_assoc.
      etransitivity; [exact Hsub|].
      apply sublist_app; [reflexivity|]. now apply step_ids.
    + intros Hm. apply Hmir. eapply step_mirrored; eauto.
Qed.
End RunFacts.

(** C7 fails as stated: of two notes created in a row, the second is stored
    before the first. *)
Lemma create_puts_note_first :
  (w ← run toLowerCase_latin1 [Create "0.a" 1 1; Create "0.b" 2 2]
         (mkWorld (mkState [] None "" true false) ∅);
   Some (ids (notes (app w)))) =
  Some [generateId "0.b" 2; generateId "0.a" 1].
Proof. reflexivity. Qed.

(** ** Closed instances *)

(** A selection outside the view falls back to the most recent note; one
    inside the view stays. *)
Lemma selection_effect_fallback_witness :
  selectedId (selection_effect toLowerCase_latin1 (demo_state (Some "zz") ""))
    = Some "b" /\
  selectedId (selection_effect toLowerCase_latin1 (demo_state (Some "a") ""))
    = Some "a".
Proof.
  split.
  - destruct (selection_effect_fallback toLowerCase_latin1
                (demo_state (Some "zz") "")) as (_ & _ & Hout & _).
    apply Hout. intros s [= <-]. simpl.
    intros [H|[H|[H|[]]]]; discriminate H.
  - destruct (selection_effect_fallback toLowerCase_latin1
                (demo_state (Some "a") "")) as (_ & _ & _ & Hin).
    apply Hin; [reflexivity|]. simpl. tauto.
Defined.

(** A title edit at clock reading 9 of a note stamped 5. *)
Lemma handleEditNote_stamps_now_witness :
  exists n',
    notes (handleEditNote (id (mkNote "a" "Hello" "World" 5)) FTitle "Hi" 9
             (demo_state None "")) !! 0%nat = Some n' /\
    id n' = id (mkNote "a" "Hello" "World" 5) /\ updated n' = 9 /\
    (updated (mkNote "a" "Hello" "World" 5) < updated n' <->
     updated (mkNote "a" "Hello" "World" 5) < 9).
Proof.
  apply (handleEditNote_stamps_now FTitle "Hi" 9 (demo_state None "") 0
           (mkNote "a" "Hello" "World" 5)).
  - discriminate.
  - reflexivity.
Defined.

(** A run from a world whose storage entry is up to date. *)
Lemma stored_order_newest_first_witness :
  exists w',
    run toLowerCase_latin1
      [Create "0.a" 1 1; EditTitle (generateId "0.a" 1) "First" 2;
       Create "0.b" 3 3; Delete (generateId "0.a" 1) true]
      (mkWorld (demo_state None "") (persist_effect (demo_state None "") ∅))
    = Some w' /\ mirrored w'.
Proof.
  destruct (stored_order_newest_first toLowerCase_latin1
              [Create "0.a" 1 1; EditTitle (generateId "0.a" 1) "First" 2;
               Create "0.b" 3 3; Delete (generateId "0.a" 1) true]
              (mkWorld (demo_state None "")
                 (persist_effect (demo_state None "") ∅)))
    as (w' & Hrun & _ & Hmir & _).
  exists w'. split; [exact Hrun|]. apply Hmir.
  unfold mirrored, persist_effect. simpl. apply lookup_insert_eq.
Defined.

(** A content edit of the second of three notes. *)
Lemma handleEditNote_partial_patch_witness :
  exists n',
    notes (handleEditNote "b" FContent "baz" 9 (demo_state None "")) !! 1%nat
      = Some n' /\
    get_field FContent n' = "baz" /\ updated n' = 9 /\
    get_field FTitle n' = "foo" /\ get_field FId n' = "b".
Proof.
  destruct (handleEditNote_partial_patch "b" FContent "baz" 9
              (demo_state None "")) as (_ & _ & _ & Hpatch).
  destruct (Hpatch 1%nat (mkNote "b" "foo" "bar" 7) eq_refl)
    as (n' & Hn' & _ & Hsame).
  destruct (Hsame eq_refl) as (Hval & Hupd & Hrest).
  exists n'. split; [exact Hn'|]. split; [exact Hval|]. split; [exact Hupd|].
  split; [apply (Hrest FTitle)|apply (Hrest FId)]; discriminate.
Defined.

(** * Further properties of the component *)

(** ** Deleting and editing at the edges *)

Lemma handleDeleteNote_notes (i : string) (st st' : State) :
  handleDeleteNote true i st = Some st' ->
  notes st' = List.filter (fun n => negb (bool_decide (id n = i))) (notes st) /\
  query st' = query st /\ sidebarOpen st' = sidebarOpen st /\
  addMode st' = addMode st.
Proof.
  unfold handleDeleteNote. simpl.
  destruct (if 1 <? _ then _ else _); [|discriminate].
  simpl. intros [= <-]. repeat split.
Qed.

Lemma filter_sublist {A} (p : A -> bool) (l : list A) :
  List.filter p l `sublist_of` l.
Proof.
  induction l as [|x l IH]; simpl; [constructor|].
  destruct (p x); now constructor.
Qed.

(** A confirmed deletion goes through for every id, removes exactly the
    notes with that id and keeps all the others in their stored order; the
    query and the add mode are as before. *)
Theorem handleDeleteNote_removes (i : string) (st : State) :
  exists st',
    handleDeleteNote true i st = Some st' /\
    (forall n, In n (notes st') <-> In n (notes st) /\ id n <> i) /\
    notes st' `sublist_of` notes st /\
    query st' = query st /\ addMode st' = addMode st.
Proof.
  destruct (handleDeleteNote_total true i st) as [st' Hdel].
  exists st'. split; [exact Hdel|].
  apply handleDeleteNote_notes in Hdel.
  destruct Hdel as (Hn & Hq & _ & Ha). rewrite Hn.
  split; [|split; [apply filter_sublist|now split]].
  intros n. rewrite filter_In, negb_true_iff, bool_decide_eq_false.
  reflexivity.
Qed.

Lemma filter_all {A} (p : A -> bool) (l : list A) :
  (forall x, In x l -> p x = true) -> List.filter p l = l.
Proof.
  induction l as [|x l IH]; intros H; simpl; [reflexivity|].
  rewrite (H x) by now left. f_equal. apply IH. intros y Hy. apply H. now right.
Qed.

(** Deleting an id that no note has: [findIndex] answers -1, the collection
    stays as it is, and the selection moves to the first stored note when
    there are at least two notes and is cleared otherwise. *)
Theorem handleDeleteNote_absent (i : string) (st : State) :
  ~ In i (ids (notes st)) ->
  exists st',
    handleDeleteNote true i st = Some st' /\
    notes st' = notes st /\
    selectedId st' =
      if 1 <? Z.of_nat (length (notes st)) then head (ids (notes st))
      else None.
Proof.
  intros Habs.
  assert (Hidx : findIndex (fun n => bool_decide (id n = i)) (notes st) = -1).
  { unfold findIndex.
    destruct (list_find _ _) as [[k x]|] eqn:Hf; [|reflexivity].
    apply list_find_Some in Hf. destruct Hf as (Hk & Hx & _).
    apply bool_decide_eq_true_1 in Hx. exfalso. apply Habs.
    apply in_map_iff. exists x. split; [exact Hx|].
    apply list_elem_of_In. eapply list_elem_of_lookup_2. exact Hk. }
  assert (Hkeep : List.filter (fun n => negb (bool_decide (id n = i)))
                    (notes st) = notes st).
  { apply filter_all. intros n Hn. apply negb_true_iff, bool_decide_eq_false.
    intros He. apply Habs. rewrite <- He. now apply in_map. }
  unfold handleDeleteNote. simpl negb. cbv iota. rewrite Hidx, Hkeep.
  destruct (Z.ltb_spec 1 (Z.of_nat (length (notes st)))) as [Hlen|Hlen].
  - destruct (Z.eqb_spec (-1) (Z.of_nat (length (notes st)) - 1))
      as [Hlast|_]; [lia|].
    change (-1 + 1) with (Z.of_nat 0). rewrite at_index_nat.
    destruct (notes st) as [|first l]; [simpl in Hlen; lia|].
    simpl. eexists. repeat split.
  - simpl. eexists. repeat split.
Qed.

(** Editing an id that no note has changes nothing at all. *)
Theorem handleEditNote_absent (i : string) (field : Field) (value : string)
    (now : Z) (st : State) :
  ~ In i (ids (notes st)) -> handleEditNote i field value now st = st.
Proof.
  intros Habs. unfold handleEditNote. destruct st as [l sel q so am].
  simpl in *. f_equal. rewrite <- (map_id l) at 2. apply map_ext_in.
  intros n Hn. destruct (decide (id n = i)) as [He|]; [|reflexivity].
  exfalso. apply Habs. rewrite <- He. now apply in_map.
Qed.

(** ** The view, whatever the query *)

Section ViewAnyQuery.
Variable toLowerCase : string -> string.

(** For every query the view is sorted by [updated], largest first, and is
  drawn from the collection: it has each of its notes from there and is
  never longer. *)
Theorem getFilteredNotes_sorted_within (st : State) :
StronglySorted newer_first (getFilteredNotes toLowerCase st) /\
(forall n, In n (getFilteredNotes toLowerCase st) -> In n (notes st)) /\
(length (getFilteredNotes toLowerCase st) <= length (notes st))%nat.
Proof.
split; [apply getFilteredNotes_sorted|].
pose proof (getFilteredNotes_perm toLowerCase st) as Hp.
destruct (decide (query st = "")) as [Hq|Hq].
- split.
  + intros n. now apply Permutation_in.
  + now rewrite (Permutation_length Hp).
- split.
  + intros n Hn. apply (Permutation_in _ Hp) in Hn.
    now apply filter_In in Hn.
  + rewrite (Permutation_length Hp). apply sublist_length, filter_sublist.
Qed.

(** Notes with the same timestamp are shown in their stored order: for
  every timestamp, the notes of the view that carry it are the matching
  notes of the collection that carry it, in the same order. *)
Theorem getFilteredNotes_ties_in_stored_order (st : State) (k : Z) :
List.filter (fun n => updated n =? k) (getFilteredNotes toLowerCase st) =
List.filter (fun n => updated n =? k)
  (if decide (query st = "") then notes st
   else List.filter (matches toLowerCase (toLowerCase (query st)))
          (notes st)).
Proof.
unfold getFilteredNotes.
destruct (decide (query st = "")); apply sort_by_updated_stable.
Qed.
End ViewAnyQuery.

(** ** Editing, selecting and creating, seen through the view *)

Lemma sort_head_newest (l : list Note) (h : Note) :
  head (sort by_updated_desc l) = Some h ->
  In h l /\ forall y, In y l -> updated y <= updated h.
Proof.
  intros Hh. pose proof (sort_perm by_updated_desc l) as Hp.
  pose proof (sort_by_updated_sorted l) as Hs.
  destruct (sort by_updated_desc l) as [|h' t]; [discriminate|].
  injection Hh as ->. split.
  - apply (Permutation_in _ Hp). now left.
  - intros y Hy. apply (Permutation_in _ (Permutation_sym Hp)) in Hy.
    apply StronglySorted_inv in Hs. destruct Hs as [_ Hall].
    destruct Hy as [<-|Hy]; [lia|].
    rewrite Forall_forall in Hall. apply Hall. now apply list_elem_of_In.
Qed.

Lemma sort_head_is_Some (l : list Note) :
  l <> [] -> exists h, head (sort by_updated_desc l) = Some h.
Proof.
  intros Hl. pose proof (sort_perm by_updated_desc l) as Hp.
  destruct (sort by_updated_desc l) as [|h t]; [|now exists h].
  apply Permutation_nil in Hp. contradiction.
Qed.

Lemma NoDup_ids_eq (l : list Note) (a b : Note) :
  NoDup (ids l) -> In a l -> In b l -> id a = id b -> a = b.
Proof.
  induction l as [|x l IH]; intros Hnd Ha Hb He; [destruct Ha|].
  simpl in Hnd. apply NoDup_cons in Hnd. destruct Hnd as [Hx Hnd].
  assert (Hin : forall n, In n l -> id n ∈ ids l).
  { intros n Hn. apply list_elem_of_In. now apply in_map. }
  destruct Ha as [<-|Ha], Hb as [<-|Hb]; try reflexivity.
  - exfalso. apply Hx. rewrite He. now apply Hin.
  - exfalso. apply Hx. rewrite <- He. now apply Hin.
  - now apply IH.
Qed.

Lemma find_id_Some (s : string) (l : list Note) (n : Note) :
  In n l -> id n = s ->
  exists m, List.find (fun x => bool_decide (id x = s)) l = Some m /\
            id m = s /\ In m l.
Proof.
  intros Hn He.
  destruct (List.find (fun x => bool_decide (id x = s)) l) as [m|] eqn:Hf.
  - apply find_some in Hf. destruct Hf as [Hm Hp].
    apply bool_decide_eq_true_1 in Hp. now exists m.
  - apply (find_none _ _ Hf) in Hn. apply bool_decide_eq_false in Hn.
    contradiction.
Qed.

Section ThroughTheView.
Variable toLowerCase : string -> string.

Local Abbreviation view := (getFilteredNotes toLowerCase).
Local Abbreviation effect := (selection_effect toLowerCase).

(** With no search running, an edit of title or content stamped later than
  every note puts an edited note on top of the view: the first note shown
  has the edited id, the new timestamp and the new value. *)
Theorem handleEditNote_moves_to_top (i : string) (field : Field)
  (value : string) (now : Z) (st : State) :
query st = "" -> field <> FId -> In i (ids (notes st)) ->
(forall m, In m (notes st) -> updated m < now) ->
exists h, head (view (handleEditNote i field value now st)) = Some h /\
  id h = i /\ updated h = now /\ get_field field h = value.
Proof.
intros Hq Hf Hi Hold. unfold getFilteredNotes.
rewrite decide_True by exact Hq. simpl notes.
set (f := fun n => if decide (id n = i) then patch field value now n else n).
apply in_map_iff in Hi. destruct Hi as (n0 & Hn0 & Hin0).
destruct (sort_head_is_Some (map f (notes st))) as [h Hh].
{ destruct (notes st); [destruct Hin0|discriminate]. }
exists h. split; [exact Hh|].
apply sort_head_newest in Hh. destruct Hh as [Hin Hmax].
apply in_map_iff in Hin. destruct Hin as (m & <- & Hm).
assert (Hnow : now <= updated (f m)).
{ specialize (Hmax (f n0) (in_map f _ _ Hin0)). unfold f in Hmax at 1.
  rewrite decide_True in Hmax by exact Hn0. exact Hmax. }
unfold f in *. destruct (decide (id m = i)) as [He|Hne].
- split; [now rewrite patch_id_other|]. split; [reflexivity|].
  apply patch_get_same.
- specialize (Hold m Hm). lia.
Qed.

Lemma selection_effect_in_view (st : State) :
match selectedId (effect st) with
| Some s => exists n, In n (view st) /\ id n = s
| None => view st = []
end.
Proof.
unfold selection_effect. cbv zeta.
destruct (view st) as [|n0 rest] eqn:Hv; [reflexivity|].
cbn [map]. destruct (selectedId st) as [s|] eqn:Hsel.
- destruct (bool_decide_reflect (s ∈ id n0 :: map id rest)) as [Hin|Hout].
  + rewrite Hsel. apply list_elem_of_In in Hin.
    change (id n0 :: map id rest) with (map id (n0 :: rest)) in Hin.
    apply in_map_iff in Hin. destruct Hin as (n & Hn & Hin). now exists n.
  + simpl. exists n0. split; [now left|reflexivity].
- simpl. exists n0. split; [now left|reflexivity].
Qed.

(** After the selection effect the selection is never outside the view:
  it names a note of the view, or the view is empty and nothing is
  selected; and the effect has nothing left to do. *)
Theorem selection_effect_settles (st : State) :
effect (effect st) = effect st /\
match selectedId (effect st) with
| Some s => exists n, In n (view (effect st)) /\ id n = s
| None => view (effect st) = []
end.
Proof.
split; [apply selection_effect_idempotent|].
rewrite selection_effect_view. apply selection_effect_in_view.
Qed.

(** Clicking a note of the list selects it: the selection effect has nothing
  to change, the list panel closes, and the note found for the editor has
  the clicked id and is the clicked note itself when ids are pairwise
  distinct. *)
Theorem handleSelectNote_listed (st : State) (n : Note) :
In n (view st) ->
effect (handleSelectNote (id n) st) = handleSelectNote (id n) st /\
sidebarOpen (handleSelectNote (id n) st) = false /\
exists m, selectedNote (handleSelectNote (id n) st) = Some m /\
  id m = id n /\ In m (notes st) /\
  (addMode st = false ->
   main_pane (handleSelectNote (id n) st) = PaneEditor m) /\
  (NoDup (ids (notes st)) -> m = n).
Proof.
intros Hn.
assert (Hnotes : In n (notes st)).
{ pose proof (getFilteredNotes_perm toLowerCase st) as Hp.
  apply (Permutation_in _ Hp) in Hn.
  destruct (decide (query st = "")); [exact Hn|].
  now apply filter_In in Hn. }
split.
{ apply (selection_effect_visible _ _ (id n)); [reflexivity|].
  rewrite (getFilteredNotes_ext toLowerCase _ st) by reflexivity.
  now apply in_map. }
split; [reflexivity|].
destruct (find_id_Some (id n) (notes st) n Hnotes eq_refl)
  as (m & Hfind & Hid & Hm).
exists m. unfold main_pane, selectedNote. simpl. rewrite Hfind.
repeat split; auto.
- now intros ->.
- intros Hnd. now apply (NoDup_ids_eq (notes st)).
Qed.

(** With no search running, creating a note opens it in the editor. *)
Theorem handleAddNote_opens_editor (rnd : string) (t_id created : Z)
  (st : State) :
query st = "" ->
main_pane (effect (handleAddNote rnd t_id created st)) =
PaneEditor (new_note rnd t_id created).
Proof.
intros Hq. rewrite handleAddNote_settled by exact Hq.
unfold main_pane, selectedNote. simpl.
now rewrite bool_decide_eq_true_2.
Qed.

(** While a search is running that the fresh note does not match, the
  created note is stored but hidden: the view is as before, and the
  selection effect moves the selection from the new note to the first note
  of the view, or clears it when the view is empty. *)
Theorem handleAddNote_hidden_by_search (rnd : string) (t_id created : Z)
  (st : State) :
query st <> "" ->
matches toLowerCase (toLowerCase (query st)) (new_note rnd t_id created)
  = false ->
~ In (generateId rnd t_id) (ids (notes st)) ->
view (handleAddNote rnd t_id created st) = view st /\
selectedId (effect (handleAddNote rnd t_id created st)) =
  head (map id (view st)) /\
selectedId (effect (handleAddNote rnd t_id created st)) <>
  Some (generateId rnd t_id).
Proof.
intros Hq Hmiss Hfresh.
assert (Hview : view (handleAddNote rnd t_id created st) = view st).
{ unfold getFilteredNotes. simpl query. simpl notes.
  rewrite !decide_False by exact Hq. cbv zeta. simpl List.filter.
  now rewrite Hmiss. }
assert (Hout : ~ In (generateId rnd t_id) (map id (view st))).
{ intros Hin. apply Hfresh. apply in_map_iff in Hin.
  destruct Hin as (n & Hid & Hn). rewrite <- Hid. apply in_map.
  pose proof (getFilteredNotes_perm toLowerCase st) as Hp.
  apply (Permutation_in _ Hp) in Hn.
  rewrite decide_False in Hn by exact Hq. now apply filter_In in Hn. }
split; [exact Hview|].
assert (Hsel : selectedId (effect (handleAddNote rnd t_id created st)) =
               head (map id (view st))).
{ unfold selection_effect. cbv zeta. rewrite Hview.
  destruct (map id (view st)) as [|first rest] eqn:Hids; [reflexivity|].
  cbn [selectedId handleAddNote new_note id].
  rewrite bool_decide_eq_false_2; [reflexivity|].
  intros Hin. apply Hout. now apply list_elem_of_In. }
split; [exact Hsel|]. rewrite Hsel.
destruct (map id (view st)) as [|first rest]; [discriminate|].
simpl. intros [= He]. apply Hout. now left.
Qed.
End ThroughTheView.

(** ** Ids *)

(** Two calls of [generateId] return the same id exactly when the nine
    random digits they keep and the clock readings are the same. *)
Theorem generateId_collision_iff (rnd rnd' : string) (t t' : Z) :
  generateId rnd t = generateId rnd' t' <->
  substr 2 9 rnd = substr 2 9 rnd' /\ t = t'.
Proof.
  split; [apply generateId_inj|].
  intros [Hr ->]. unfold generateId. now rewrite Hr.
Qed.

Lemma created_ids_times (ops : list Op) (i : string) :
  In i (created_ids ops) ->
  exists rnd t, i = generateId rnd t /\ In t (created_times ops).
Proof.
  induction ops as [|op ops IH]; [intros []|].
  destruct op as [rnd t created| | |]; simpl; auto.
  intros [<-|Hi].
  - exists rnd, t. split; [reflexivity|now left].
  - destruct (IH Hi) as (r & t' & He & Ht). exists r, t'. auto.
Qed.

Lemma created_ids_NoDup (ops : list Op) :
  NoDup (created_times ops) -> NoDup (created_ids ops).
Proof.
  induction ops as [|op ops IH]; [constructor|].
  destruct op as [rnd t created| | |]; simpl; auto.
  intros Hnd. apply NoDup_cons in Hnd. destruct Hnd as [Ht Hnd].
  apply NoDup_cons. split; [|now apply IH].
  intros Hin. apply list_elem_of_In, created_ids_times in Hin.
  destruct Hin as (r & t' & He & Ht'). apply generateId_inj in He.
  destruct He as [_ ->]. apply Ht. now apply list_elem_of_In.
Qed.

(** ** Runs and storage *)

Lemma persist_effect_other (st : State) (ls : gmap string string) (k : string) :
  k <> STORAGE_KEY -> persist_effect st ls !! k = ls !! k.
Proof. intros Hk. unfold persist_effect. now apply lookup_insert_ne. Qed.

Lemma load_mirrored (w : World) :
  mirrored w -> load_notes (localStorage w) = Some (notes (app w)).
Proof.
  unfold mirrored, load_notes. intros ->.
  destruct (decide (JSON_stringify (JArr (map note_to_json (notes (app w))))
                    = "")) as [He|_]; [discriminate He|].
  rewrite JSON_parse_stringify, bind_Some. apply json_to_notes_to_json.
Qed.

Section RunsAndStorage.
Variable toLowerCase : string -> string.

Local Abbreviation step := (step toLowerCase).
Local Abbreviation run := (run toLowerCase).

Lemma run_total (ops : list Op) (w : World) : is_Some (run ops w).
Proof.
revert w. induction ops as [|op ops IH]; intros w; simpl; [eauto|].
destruct (step_total toLowerCase op w) as [w1 ->]. simpl. apply IH.
Qed.

Lemma run_cons (op : Op) (ops : list Op) (w w' : World) :
run (op :: ops) w = Some w' ->
exists w1, step op w = Some w1 /\ run ops w1 = Some w'.
Proof.
simpl. destruct (step op w) as [w1|]; [|discriminate].
simpl. intros H. now exists w1.
Qed.

Lemma run_ids_sublist (ops : list Op) (w w' : World) :
run ops w = Some w' ->
ids (notes (app w')) `sublist_of`
  rev (created_ids ops) ++ ids (notes (app w)).
Proof.
revert w. induction ops as [|op ops IH]; intros w Hrun.
- injection Hrun as <-. reflexivity.
- apply run_cons in Hrun. destruct Hrun as (w1 & H1 & Hrun).
  rewrite created_ids_cons, rev_app_distr, <- app_assoc.
  etransitivity; [apply (IH _ Hrun)|].
  apply sublist_app; [reflexivity|]. now apply (step_ids toLowerCase).
Qed.

Lemma run_mirrored (ops : list Op) (w w' : World) :
run ops w = Some w' -> mirrored w -> mirrored w'.
Proof.
revert w. induction ops as [|op ops IH]; intros w Hrun Hm.
- now injection Hrun as <-.
- apply run_cons in Hrun. destruct Hrun as (w1 & H1 & Hrun).
  apply (IH _ Hrun). eapply step_mirrored; eauto.
Qed.

Lemma step_other_keys (op : Op) (w w' : World) (k : string) :
step op w = Some w' -> k <> STORAGE_KEY ->
localStorage w' !! k = localStorage w !! k.
Proof.
unfold step.
destruct (apply_op op (app w)) as [st'|]; [|discriminate].
simpl. intros [= <-] Hk. destruct (sets_notes op); [|reflexivity].
simpl. now apply persist_effect_other.
Qed.

(** Whatever is created, edited and deleted, loading the storage entry
  afterwards gives the collection as it then is, provided the entry was up
  to date when the run began (as it is after the first render). *)
Theorem run_then_reload (ops : list Op) (w : World) :
mirrored w ->
exists w', run ops w = Some w' /\
  load_notes (localStorage w') = Some (notes (app w')).
Proof.
intros Hm. destruct (run_total ops w) as [w' Hrun].
exists w'. split; [exact Hrun|].
apply load_mirrored. eapply run_mirrored; eauto.
Qed.

(** The component writes to its own storage entry only: every other key of
  [localStorage] reads after a run as it did before. *)
Theorem run_keeps_other_keys (ops : list Op) (w : World) :
exists w', run ops w = Some w' /\
  forall k, k <> STORAGE_KEY ->
    localStorage w' !! k = localStorage w !! k.
Proof.
revert w. induction ops as [|op ops IH]; intros w.
- exists w. now split.
- destruct (step_total toLowerCase op w) as [w1 H1].
  destruct (IH w1) as (w' & Hrun & Hkeys).
  exists w'. split; [simpl; now rewrite H1|].
  intros k Hk. rewrite (Hkeys k Hk). now apply (step_other_keys op).
Qed.

(** From an empty collection, while no two notes are created at the same
  clock reading, the ids of the stored notes stay pairwise distinct through
  every run of creations, edits and deletions. *)
Theorem run_ids_unique (ops : list Op) (w : World) :
notes (app w) = [] -> NoDup (created_times ops) ->
exists w', run ops w = Some w' /\ NoDup (ids (notes (app w'))).
Proof.
intros Hempty Htimes. destruct (run_total ops w) as [w' Hrun].
exists w'. split; [exact Hrun|].
apply run_ids_sublist in Hrun. rewrite Hempty, app_nil_r in Hrun.
eapply sublist_NoDup; [|exact Hrun].
apply NoDup_ListNoDup, List.NoDup_rev, NoDup_ListNoDup.
now apply created_ids_NoDup.
Qed.

(** Loading what a state persisted and rendering it: the collection is
  back, the search is empty, the most recently updated note is selected
  (none when there is no note), and the storage is left as it was. *)
Theorem mount_after_persist (width : Z) (st : State)
  (ls : gmap string string) :
mount toLowerCase width (persist_effect st ls) =
Some (mkWorld
        (mkState (notes st) (head (ids (sort by_updated_desc (notes st))))
           "" (600 <? width) false)
        (persist_effect st ls)).
Proof.
assert (Hload : load_notes (persist_effect st ls) = Some (notes st)).
{ apply (load_mirrored (mkWorld st (persist_effect st ls))).
  unfold mirrored, persist_effect. simpl. apply lookup_insert_eq. }
unfold mount, initial_state. rewrite Hload. simpl. f_equal. f_equal.
- unfold selection_effect, getFilteredNotes. simpl.
  unfold ids. destruct (map id (sort by_updated_desc (notes st)));
    reflexivity.
- unfold persist_effect. simpl. apply insert_insert_eq.
Qed.

(** A first render on a storage without the entry, or with an empty one:
  the collection is empty, nothing is selected, and the entry written
  afterwards loads as the empty collection. *)
Theorem mount_without_entry (width : Z) (ls : gmap string string) :
ls !! STORAGE_KEY = None \/ ls !! STORAGE_KEY = Some "" ->
exists w, mount toLowerCase width ls = Some w /\
  notes (app w) = [] /\ selectedId (app w) = None /\
  load_notes (localStorage w) = Some [].
Proof.
intros Hls.
assert (Hload : load_notes ls = Some []).
{ unfold load_notes. destruct Hls as [->| ->]; reflexivity. }
unfold mount, initial_state. rewrite Hload. simpl.
eexists. split; [reflexivity|]. simpl. repeat split.
unfold load_notes, persist_effect. now rewrite lookup_insert_eq.
Qed.
(** A confirmed deletion, with the effects that follow it: the id is gone
  from the collection, it is not the selection any more, whatever the
  search, and loading the storage entry gives the collection without it. *)
Theorem step_delete_forgets (i : string) (w : World) :
exists w',
  step (Delete i true) w = Some w' /\
  ~ In i (ids (notes (app w'))) /\
  selectedId (app w') <> Some i /\
  load_notes (localStorage w') = Some (notes (app w')).
Proof.
destruct (handleDeleteNote_total true i (app w)) as [st' Hdel].
exists (mkWorld (selection_effect toLowerCase st')
          (persist_effect st' (localStorage w))).
split; [unfold step; simpl; now rewrite Hdel|]. simpl.
apply handleDeleteNote_notes in Hdel. destruct Hdel as (Hnotes & _).
assert (Hgone : forall n, In n (notes st') -> id n <> i).
{ intros n Hn. rewrite Hnotes in Hn. apply filter_In in Hn.
  destruct Hn as [_ Hn]. now apply negb_true_iff, bool_decide_eq_false in Hn. }
split; [|split].
- rewrite selection_effect_notes. intros Hin. apply in_map_iff in Hin.
  destruct Hin as (n & Hid & Hn). now apply (Hgone n).
- pose proof (selection_effect_in_view toLowerCase st') as Hsel.
  intros He. rewrite He in Hsel. destruct Hsel as (n & Hn & Hid).
  apply (Hgone n); [|exact Hid].
  pose proof (getFilteredNotes_perm toLowerCase st') as Hp.
  apply (Permutation_in _ Hp) in Hn.
  destruct (decide (query st' = "")); [exact Hn|].
  now apply filter_In in Hn.
- apply (load_mirrored
           (mkWorld (selection_effect toLowerCase st')
              (persist_effect st' (localStorage w)))).
  unfold mirrored, persist_effect. simpl.
  rewrite selection_effect_notes. apply lookup_insert_eq.
Qed.
End RunsAndStorage.

(** ** The add mode *)

(** Asking for a new note shows the prompt instead of the editor and
    touches neither the collection, the selection nor the query; cancelling
    gives back the state from before the request. *)
Theorem add_mode_round_trip (st : State) :
  addMode st = false ->
  main_pane (handleStartAdd st) = PaneNew /\
  notes (handleStartAdd st) = notes st /\
  selectedId (handleStartAdd st) = selectedId st /\
  query (handleStartAdd st) = query st /\
  handleCancelAdd (handleStartAdd st) = st.
Proof.
  intros Ha. repeat split. destruct st as [l sel q so am].
  simpl in Ha. subst am. reflexivity.
Qed.

(** ** The editor *)

Lemma find_map_same_id (f : Note -> Note) (s : string) (l : list Note) :
  (forall x, id (f x) = id x) ->
  List.find (fun x => bool_decide (id x = s)) (map f l) =
  f <$> List.find (fun x => bool_decide (id x = s)) l.
Proof.
  intros Hf. induction l as [|x l IH]; [reflexivity|].
  simpl. rewrite Hf. destruct (bool_decide (id x = s)); [reflexivity|exact IH].
Qed.

Lemma selectedNote_handleEditNote (note : Note) (field : Field)
    (value : string) (now : Z) (st : State) :
  field <> FId -> selectedNote st = Some note ->
  selectedNote (handleEditNote (id note) field value now st) =
  Some (patch field value now note).
Proof.
  intros Hf. unfold selectedNote, handleEditNote. simpl.
  destruct (selectedId st) as [s|]; [|discriminate]. intros Hfind.
  rewrite find_map_same_id.
  - rewrite Hfind. simpl. now rewrite decide_True.
  - intros x. destruct (decide (id x = id note)); [|reflexivity].
    now apply patch_id_other.
Qed.

(** The editor given a note with another id starts over from the stored
    texts of that note. *)
Lemma editor_rerender_other (previous note : Note) (e : EditorText) :
  id note <> id previous -> editor_rerender previous note e = editor_reset note.
Proof. intros Hne. unfold editor_rerender. now rewrite decide_False. Qed.

(** ** Date labels *)

Lemma padStart_two_digits (n : Z) :
  0 <= n <= 99 ->
  String.length (padStart 2 "0" (Number_toString 10 n)) = 2%nat /\
  string_forall is_decimal (padStart 2 "0" (Number_toString 10 n)) = true /\
  numeral_value 10 (padStart 2 "0" (Number_toString 10 n)) 0 = Z.to_N n.
Proof.
  intros Hn.
  assert (Hall : forallb
            (fun k =>
               let s := padStart 2 "0" (Number_toString 10 (Z.of_nat k)) in
               (String.length s =? 2)%nat && string_forall is_decimal s
               && (numeral_value 10 s 0 =? N.of_nat k)%N)
            (seq 0 100) = true) by (vm_compute; reflexivity).
  rewrite forallb_forall in Hall.
  specialize (Hall (Z.to_nat n)). rewrite Z2Nat.id in Hall by lia.
  cbv zeta in Hall. rewrite !andb_true_iff in Hall.
  destruct Hall as [[Hlen Hdec] Hval]; [apply in_seq; lia|].
  apply Nat.eqb_eq in Hlen. apply N.eqb_eq in Hval.
  repeat split; [exact Hlen|exact Hdec|]. rewrite Hval. lia.
Qed.

Lemma N_toString_last_two (n : N) :
  (10 <= n)%N ->
  exists x, N_toString 10 n =
    x +:+ String (digit_char ((n / 10) mod 10))
            (String (digit_char (n mod 10)) "").
Proof.
  intros Hn. unfold N_toString.
  pose proof (N.size_gt n) as Hsize.
  destruct (N.to_nat (N.size n)) as [|fuel] eqn:Hfuel.
  { assert (N.size n = 0%N) as Hz by lia. rewrite Hz in Hsize.
    change (2 ^ 0)%N with 1%N in Hsize. lia. }
  rewrite digits_step.
  destruct (N.eqb_spec (n / 10) 0) as [Hz|_].
  { pose proof (N.div_mod n 10 ltac:(lia)) as Hdm.
    pose proof (N.mod_lt n 10 ltac:(lia)). rewrite Hz in Hdm. lia. }
  rewrite digits_step. destruct (n / 10 / 10 =? 0)%N.
  - now exists "".
  - eexists. now rewrite string_app_assoc.
Qed.

Lemma substring_all (k : nat) (s : string) :
  String.length s = k -> String.substring 0 k s = s.
Proof.
  revert k. induction s as [|c s IH]; intros k Hk; simpl in Hk; subst k;
    [reflexivity|].
  simpl. now rewrite IH.
Qed.

Lemma slice_last_app (k : nat) (x s : string) :
  String.length s = k -> slice_last k (x +:+ s) = s.
Proof.
  intros Hs. unfold slice_last. rewrite string_length_app, Hs.
  replace (String.length x + k - k)%nat with (String.length x) by lia.
  induction x as [|c x IH]; [now apply substring_all|].
  rewrite string_app_cons. exact IH.
Qed.

Lemma last_two_digits (y : Z) :
  10 <= y ->
  String.length (slice_last 2 (Number_toString 10 y)) = 2%nat /\
  string_forall is_decimal (slice_last 2 (Number_toString 10 y)) = true /\
  numeral_value 10 (slice_last 2 (Number_toString 10 y)) 0 = Z.to_N (y mod 100).
Proof.
  intros Hy. destruct y as [|p|p]; try lia.
  simpl Number_toString.
  destruct (N_toString_last_two (Npos p)) as [x Hx]; [lia|].
  rewrite Hx, slice_last_app by reflexivity.
  set (n := Npos p) in *.
  assert (H1 : (n / 10 mod 10 < 10)%N) by (apply N.mod_lt; lia).
  assert (H0 : (n mod 10 < 10)%N) by (apply N.mod_lt; lia).
  split; [reflexivity|]. split.
  - simpl. now rewrite !is_decimal_digit_char.
  - simpl. rewrite !digit_val_digit_char by lia.
    rewrite Z2N.inj_mod by lia.
    change (Z.to_N (Z.pos p)) with n. change (Z.to_N 100) with 100%N.
    pose proof (N.div_mod n 10 ltac:(lia)).
    pose proof (N.div_mod (n / 10) 10 ltac:(lia)).
    pose proof (N.div_mod n 100 ltac:(lia)).
    pose proof (N.mod_lt n 100 ltac:(lia)).
    assert ((n / 10 / 10 = n / 100)%N) by (rewrite N.Div0.div_div; reflexivity).
    lia.
Qed.

Section DateLabels.
Variables getFullYear getMonth getDate : Z -> Z.
Variable setDate : Z -> Z -> Z.

Local Abbreviation formatDate :=
(formatDate getFullYear getMonth getDate setDate).
Local Abbreviation same_day := (same_day getFullYear getMonth getDate).

Lemma same_day_refl (t : Z) : same_day t t = true.
Proof. unfold same_day. now rewrite !Z.eqb_refl. Qed.

(** The timestamp 0 counts as missing and gets an empty label, whatever the
  clock says; any other timestamp equal to the clock reading is labelled
  "Today", whatever the time zone. *)
Theorem formatDate_zero_and_now (now : Z) :
formatDate now 0 = "" /\ (now <> 0 -> formatDate now now = "Today").
Proof.
split; [reflexivity|]. intros Hnow. unfold formatDate.
destruct (Z.eqb_spec now 0) as [He|_]; [contradiction|].
cbv zeta. now rewrite same_day_refl.
Qed.

(** A label is empty, "Today", "Yesterday", or a date mm/dd/yy: where the
  calendar fields of the timestamp are a month 0-11, a day 1-31 and a year
  from 10 on, its three parts have two decimal digits each and spell the
  month counted from 1, the day of the month and the year modulo 100. *)
Theorem formatDate_label (now ts : Z) :
0 <= getMonth ts <= 11 -> 1 <= getDate ts <= 31 -> 10 <= getFullYear ts ->
formatDate now ts = "" \/ formatDate now ts = "Today" \/
formatDate now ts = "Yesterday" \/
exists mm dd yy,
  formatDate now ts = mm +:+ "/" +:+ dd +:+ "/" +:+ yy /\
  String.length mm = 2%nat /\ String.length dd = 2%nat /\
  String.length yy = 2%nat /\
  string_forall is_decimal (mm +:+ dd +:+ yy) = true /\
  numeral_value 10 mm 0 = Z.to_N (getMonth ts + 1) /\
  numeral_value 10 dd 0 = Z.to_N (getDate ts) /\
  numeral_value 10 yy 0 = Z.to_N (getFullYear ts mod 100).
Proof.
intros Hm Hd Hy. unfold formatDate.
destruct (ts =? 0); [now left|]. cbv zeta.
destruct (same_day now ts); [right; now left|].
destruct (same_day (setDate now (getDate now - 1)) ts);
  [right; right; now left|].
right. right. right.
destruct (padStart_two_digits (getMonth ts + 1)) as (Lm & Dm & Vm); [lia|].
destruct (padStart_two_digits (getDate ts)) as (Ld & Dd & Vd); [lia|].
destruct (last_two_digits (getFullYear ts) Hy) as (Ly & Dy & Vy).
eexists _, _, _. split; [reflexivity|].
repeat split; try assumption.
now rewrite !string_forall_app, Dm, Dd, Dy.
Qed.
End DateLabels.

(** ** Closed instances of the further properties *)

(** Deleting an id that none of three notes has. *)
Lemma handleDeleteNote_absent_witness :
  exists st',
    handleDeleteNote true "zz" (demo_state (Some "b") "") = Some st' /\
    notes st' = demo_notes /\ selectedId st' = Some "a".
Proof.
  apply (handleDeleteNote_absent "zz" (demo_state (Some "b") "")).
  simpl. intros [H|[H|[H|[]]]]; discriminate H.
Defined.

(** Editing an id that none of three notes has. *)
Lemma handleEditNote_absent_witness :
  handleEditNote "zz" FTitle "New" 9 (demo_state (Some "b") "") =
  demo_state (Some "b") "".
Proof.
  apply (handleEditNote_absent "zz" FTitle "New" 9 (demo_state (Some "b") "")).
  simpl. intros [H|[H|[H|[]]]]; discriminate H.
Defined.

(** Editing the last stored of three notes at a later clock reading. *)
Lemma handleEditNote_moves_to_top_witness :
  exists h,
    head (getFilteredNotes toLowerCase_latin1
            (handleEditNote "c" FContent "new" 9 (demo_state None "")))
      = Some h /\
    id h = "c" /\ updated h = 9 /\ get_field FContent h = "new".
Proof.
  apply (handleEditNote_moves_to_top toLowerCase_latin1 "c" FContent "new" 9
           (demo_state None "")).
  - reflexivity.
  - discriminate.
  - simpl. tauto.
  - intros m [<-|[<-|[<-|[]]]]; simpl; lia.
Defined.

(** Clicking the second match of a search. *)
Lemma handleSelectNote_listed_witness :
  selection_effect toLowerCase_latin1
    (handleSelectNote "c" (demo_state (Some "a") "hell")) =
  handleSelectNote "c" (demo_state (Some "a") "hell") /\
  sidebarOpen (handleSelectNote "c" (demo_state (Some "a") "hell")) = false /\
  exists m,
    selectedNote (handleSelectNote "c" (demo_state (Some "a") "hell"))
      = Some m /\
    id m = "c" /\ In m demo_notes /\
    (false = false ->
     main_pane (handleSelectNote "c" (demo_state (Some "a") "hell"))
       = PaneEditor m) /\
    (NoDup (ids demo_notes) -> m = mkNote "c" "HELLO" "" 5).
Proof.
  apply (handleSelectNote_listed toLowerCase_latin1
           (demo_state (Some "a") "hell") (mkNote "c" "HELLO" "" 5)).
  vm_compute. tauto.
Defined.

(** Creating a note with no search running. *)
Lemma handleAddNote_opens_editor_witness :
  main_pane (selection_effect toLowerCase_latin1
               (handleAddNote "0.a" 1 1 (demo_state (Some "b") ""))) =
  PaneEditor (new_note "0.a" 1 1).
Proof.
  apply (handleAddNote_opens_editor toLowerCase_latin1 "0.a" 1 1
           (demo_state (Some "b") "")).
  reflexivity.
Defined.

(** Creating a note while searching for "foo". *)
Lemma handleAddNote_hidden_by_search_witness :
  getFilteredNotes toLowerCase_latin1
    (handleAddNote "0.a" 1 1 (demo_state (Some "b") "foo")) =
  getFilteredNotes toLowerCase_latin1 (demo_state (Some "b") "foo") /\
  selectedId (selection_effect toLowerCase_latin1
                (handleAddNote "0.a" 1 1 (demo_state (Some "b") "foo"))) =
    Some "b" /\
  selectedId (selection_effect toLowerCase_latin1
                (handleAddNote "0.a" 1 1 (demo_state (Some "b") "foo"))) <>
    Some (generateId "0.a" 1).
Proof.
  apply (handleAddNote_hidden_by_search toLowerCase_latin1 "0.a" 1 1
           (demo_state (Some "b") "foo")).
  - discriminate.
  - reflexivity.
  - simpl. intros [H|[H|[H|[]]]]; discriminate H.
Defined.

(** A run from a world whose storage entry is up to date, then a reload. *)
Lemma run_then_reload_witness :
  exists w',
    run toLowerCase_latin1
      [Create "0.a" 1 1; EditContent (generateId "0.a" 1) "text" 2;
       Delete "b" true]
      (mkWorld (demo_state None "") (persist_effect (demo_state None "") ∅))
    = Some w' /\
    load_notes (localStorage w') = Some (notes (app w')).
Proof.
  apply (run_then_reload toLowerCase_latin1).
  unfold mirrored, persist_effect. simpl. apply lookup_insert_eq.
Defined.

(** A run beside a key of another application. *)
Lemma run_keeps_other_keys_witness :
  exists w',
    run toLowerCase_latin1 [Create "0.a" 1 1; Delete "b" true]
      (mkWorld (demo_state None "") {["theme" := "dark"]}) = Some w' /\
    localStorage w' !! "theme" = Some "dark".
Proof.
  destruct (run_keeps_other_keys toLowerCase_latin1
              [Create "0.a" 1 1; Delete "b" true]
              (mkWorld (demo_state None "") {["theme" := "dark"]}))
    as (w' & Hrun & Hkeys).
  exists w'. split; [exact Hrun|].
  rewrite Hkeys by discriminate. apply lookup_singleton_eq.
Defined.

(** Two creations at different clock readings, from an empty collection. *)
Lemma run_ids_unique_witness :
  exists w',
    run toLowerCase_latin1
      [Create "0.a" 1 1; Create "0.a" 3 3; EditTitle (generateId "0.a" 1) "T" 4]
      (mkWorld (mkState [] None "" true false) ∅) = Some w' /\
    NoDup (ids (notes (app w'))).
Proof.
  apply (run_ids_unique toLowerCase_latin1).
  - reflexivity.
  - apply (bool_decide_unpack _). exact I.
Defined.

(** Deleting the selected note of three while searching. *)
Lemma step_delete_forgets_witness :
  exists w',
    step toLowerCase_latin1 (Delete "a" true)
      (mkWorld (demo_state (Some "a") "hell") ∅) = Some w' /\
    ~ In "a" (ids (notes (app w'))) /\
    selectedId (app w') <> Some "a" /\
    load_notes (localStorage w') = Some (notes (app w')).
Proof.
  exact (step_delete_forgets toLowerCase_latin1 "a"
           (mkWorld (demo_state (Some "a") "hell") ∅)).
Defined.

(** Asking for a new note and cancelling. *)
Lemma add_mode_round_trip_witness :
  main_pane (handleStartAdd (demo_state (Some "b") "")) = PaneNew /\
  handleCancelAdd (handleStartAdd (demo_state (Some "b") "")) =
    demo_state (Some "b") "".
Proof.
  destruct (add_mode_round_trip (demo_state (Some "b") "") eq_refl)
    as (Hpane & _ & _ & _ & Hback).
  now split.
Defined.

(** A first render on an empty storage. *)
Lemma mount_without_entry_witness :
  exists w, mount toLowerCase_latin1 1024 ∅ = Some w /\
    notes (app w) = [] /\ selectedId (app w) = None /\
    load_notes (localStorage w) = Some [].
Proof.
  apply (mount_without_entry toLowerCase_latin1 1024 ∅).
  left. apply lookup_empty.
Defined.

(** A timestamp equal to the clock reading, in a UTC time zone. *)
Lemma formatDate_zero_and_now_witness :
  utc_formatDate 1730000000000 1730000000000 = "Today".
Proof.
  apply (formatDate_zero_and_now utc_getFullYear utc_getMonth utc_getDate
           utc_setDate 1730000000000).
  discriminate.
Defined.

(** A timestamp two days before the clock reading, in a UTC time zone. *)
Lemma formatDate_label_witness :
  utc_formatDate 1730000000000 1729827200000 = "" \/
  utc_formatDate 1730000000000 1729827200000 = "Today" \/
  utc_formatDate 1730000000000 1729827200000 = "Yesterday" \/
  exists mm dd yy,
    utc_formatDate 1730000000000 1729827200000 =
      mm +:+ "/" +:+ dd +:+ "/" +:+ yy /\
    String.length mm = 2%nat /\ String.length dd = 2%nat /\
    String.length yy = 2%nat /\
    string_forall is_decimal (mm +:+ dd +:+ yy) = true /\
    numeral_value 10 mm 0 = 10%N /\
    numeral_value 10 dd 0 = 25%N /\
    numeral_value 10 yy 0 = 24%N.
Proof.
  apply (formatDate_label utc_getFullYear utc_getMonth utc_getDate utc_setDate
           1730000000000 1729827200000).
  - split; apply Z.leb_le; reflexivity.
  - split; apply Z.leb_le; reflexivity.
  - apply Z.leb_le. reflexivity.
Defined.

(** ** Searching with case ignored

    [toLowerCase_latin1] sends two letters to the same one exactly when they
    differ in case at most, so a lowered text contains the lowered query
    exactly when the text has the query in it up to case. *)











(** ** Handlers followed by the selection effect

    A handler that sets the [notes] cell is followed by the selection effect,
    which reads the [selectedId] the handler wrote. *)

Lemma selectedNote_id (st : State) (note : Note) :
  selectedNote st = Some note ->
  selectedId st = Some (id note) /\ In note (notes st).
Proof.
  unfold selectedNote. destruct (selectedId st) as [s|]; [|discriminate].
  intros Hf. apply List.find_some in Hf. destruct Hf as [Hin Hb].
  apply bool_decide_eq_true_1 in Hb. now rewrite Hb.
Qed.


Section AfterTheEffect.
Variable toLowerCase : string -> string.

Local Abbreviation view := (getFilteredNotes toLowerCase).
Local Abbreviation effect := (selection_effect toLowerCase).




(** A selection outside the view is replaced by the first note of the
    view, or by none when the view is empty. *)
Lemma selection_effect_hidden (st : State) :
  (forall s, selectedId st = Some s -> ~ In s (map id (view st))) ->
  selectedId (effect st) = head (map id (view st)).
Proof.
  intros Hout. unfold selection_effect. cbv zeta.
  destruct (selectedId st) as [s|] eqn:Hsel.
  - specialize (Hout s eq_refl).
    destruct (map id (view st)) as [|first rest]; [reflexivity|].
    rewrite bool_decide_eq_false_2; [reflexivity|].
    intros Hin. apply Hout. now apply list_elem_of_In.
  - now destruct (map id (view st)).
Qed.


(** C4, as the code has it, for the selection.  The created note is put in
    front of the collection.  While no search is running, or the running
    search matches the fresh note, the created note is the selection after
    the selection effect, [selectedNote] finds it and the main area shows
    its editor.  While a search hides it, the selection after the effect
    is the first note of the view, or none when the view is empty. *)
Theorem handleAddNote_selected_when_shown (rnd : string) (t_id created : Z)
    (st : State) :
  notes (effect (handleAddNote rnd t_id created st)) =
    new_note rnd t_id created :: notes st /\
  (query st = "" \/
   matches toLowerCase (toLowerCase (query st)) (new_note rnd t_id created)
     = true ->
   In (new_note rnd t_id created) (view (handleAddNote rnd t_id created st)) /\
   selectedId (effect (handleAddNote rnd t_id created st)) =
     Some (id (new_note rnd t_id created)) /\
   selectedNote (effect (handleAddNote rnd t_id created st)) =
     Some (new_note rnd t_id created) /\
   main_pane (effect (handleAddNote rnd t_id created st)) =
     PaneEditor (new_note rnd t_id created)) /\
  (query st <> "" ->
   matches toLowerCase (toLowerCase (query st)) (new_note rnd t_id created)
     = false ->
   ~ In (id (new_note rnd t_id created)) (map id (view st)) ->
   view (handleAddNote rnd t_id created st) = view st /\
   selectedId (effect (handleAddNote rnd t_id created st)) =
     head (map id (view st))).
Proof.
  split; [now rewrite selection_effect_notes|]. split.
  - intros Hshown.
    assert (Hin : In (new_note rnd t_id created)
                    (view (handleAddNote rnd t_id created st))).
    { pose proof (getFilteredNotes_perm toLowerCase
                    (handleAddNote rnd t_id created st)) as Hp.
      apply (Permutation_in _ (Permutation_sym Hp)).
      cbn [query notes handleAddNote].
      destruct (decide (query st = "")) as [_|Hq]; [now left|].
      destruct Hshown as [Hq'|Hm]; [contradiction|].
      apply filter_In. split; [now left|exact Hm]. }
    split; [exact Hin|].
    rewrite (selection_effect_visible toLowerCase
               (handleAddNote rnd t_id created st)
               (id (new_note rnd t_id created)) eq_refl)
      by now apply in_map.
    split; [reflexivity|].
    assert (Hfind : selectedNote (handleAddNote rnd t_id created st) =
                    Some (new_note rnd t_id created)).
    { unfold selectedNote, handleAddNote. simpl.
      now rewrite bool_decide_eq_true_2. }
    split; [exact Hfind|]. unfold main_pane. now rewrite Hfind.
  - intros Hq Hmiss Hout.
    assert (Hview : view (handleAddNote rnd t_id created st) = view st).
    { unfold getFilteredNotes. cbn [query notes handleAddNote].
      rewrite !decide_False by exact Hq. cbv zeta. cbn [List.filter].
      now rewrite Hmiss. }
    split; [exact Hview|].
    rewrite selection_effect_hidden; [now rewrite Hview|].
    intros s [= <-]. now rewrite Hview.
Qed.

(** What the editor of [note] meets after an edit of its note that did
    not touch the id. *)
Lemma handleEditNote_no_search (note : Note) (field : Field) (v : string)
    (now : Z) (st : State) :
  field <> FId -> selectedNote st = Some note -> query st = "" ->
  In (id note) (map id (view (handleEditNote (id note) field v now st))).
Proof.
  intros Hf Hsel Hq. apply view_ids_empty_query; [exact Hq|].
  rewrite handleEditNote_ids by exact Hf.
  apply in_map. now apply selectedNote_id.
Qed.

Lemma handleEditNote_shown (note : Note) (field : Field) (v : string)
    (now : Z) (st : State) :
  field <> FId -> selectedNote st = Some note ->
  In (id note) (map id (view (handleEditNote (id note) field v now st))) ->
  selectedNote (effect (handleEditNote (id note) field v now st)) =
    Some (patch field v now note).
Proof.
  intros Hf Hsel Hin.
  rewrite (selection_effect_visible toLowerCase _ (id note)).
  - now apply selectedNote_handleEditNote.
  - cbn [selectedId handleEditNote]. now apply selectedNote_id in Hsel.
  - exact Hin.
Qed.

Lemma handleEditNote_hidden (note : Note) (field : Field) (v : string)
    (now : Z) (e : EditorText) (st : State) :
  selectedNote st = Some note ->
  ~ In (id note) (map id (view (handleEditNote (id note) field v now st))) ->
  selectedId (effect (handleEditNote (id note) field v now st)) =
    head (map id (view (handleEditNote (id note) field v now st))) /\
  forall note',
    selectedNote (effect (handleEditNote (id note) field v now st)) =
      Some note' ->
    id note' <> id note /\
    editor_rerender note note' e = editor_reset note'.
Proof.
  intros Hsel Hout.
  assert (Hmoved :
    selectedId (effect (handleEditNote (id note) field v now st)) =
    head (map id (view (handleEditNote (id note) field v now st)))).
  { apply selection_effect_hidden. intros s Hs.
    apply selectedNote_id in Hsel. destruct Hsel as [Hid _].
    cbn [selectedId handleEditNote] in Hs. rewrite Hid in Hs.
    now injection Hs as <-. }
  split; [exact Hmoved|].
  intros note' Hfound. apply selectedNote_id in Hfound.
  destruct Hfound as [Hid' _]. rewrite Hmoved in Hid'.
  assert (Hne : id note' <> id note).
  { intros He. apply Hout.
    destruct (map id (view (handleEditNote (id note) field v now st)))
      as [|first rest]; [discriminate Hid'|].
    simpl in Hid'. injection Hid' as Hfirst. left. now rewrite Hfirst. }
  split; [exact Hne|]. now apply editor_rerender_other.
Qed.

(** A keystroke in the title or the content field of the editor, followed
    by the selection effect.  While the edited note is in the filtered
    view afterwards, as it always is when no search is running, the editor
    and the store stay in step: the note found for the editor has the same
    id, the typed text in the edited field, the other text as before and
    the clock reading as its timestamp, an editor that showed the stored
    texts before the keystroke shows them after it, and its reset effect
    does not run.  When the keystroke makes the note stop matching the
    running search, the selection moves to the first note of the view, or
    to none; a note then found for the editor has another id and the
    editor starts over from the stored texts of that note. *)
Theorem editor_keystroke_then_effect (note : Note) (v : string) (now : Z)
    (e : EditorText) (st : State) :
  selectedNote st = Some note ->
  ((query st = "" ->
    In (id note) (map id (view (snd (handleTitleChange note v now e st))))) /\
   (In (id note) (map id (view (snd (handleTitleChange note v now e st)))) ->
    exists note',
      selectedNote (effect (snd (handleTitleChange note v now e st))) =
        Some note' /\
      id note' = id note /\ title note' = v /\
      content note' = content note /\ updated note' = now /\
      editor_rerender note note' (fst (handleTitleChange note v now e st)) =
        fst (handleTitleChange note v now e st) /\
      (e = editor_reset note ->
       fst (handleTitleChange note v now e st) = editor_reset note')) /\
   (~ In (id note)
        (map id (view (snd (handleTitleChange note v now e st)))) ->
    selectedId (effect (snd (handleTitleChange note v now e st))) =
      head (map id (view (snd (handleTitleChange note v now e st)))) /\
    forall note',
      selectedNote (effect (snd (handleTitleChange note v now e st))) =
        Some note' ->
      id note' <> id note /\
      editor_rerender note note' (fst (handleTitleChange note v now e st)) =
        editor_reset note')) /\
  ((query st = "" ->
    In (id note)
       (map id (view (snd (handleContentChange note v now e st))))) /\
   (In (id note)
       (map id (view (snd (handleContentChange note v now e st)))) ->
    exists note',
      selectedNote (effect (snd (handleContentChange note v now e st))) =
        Some note' /\
      id note' = id note /\ content note' = v /\
      title note' = title note /\ updated note' = now /\
      editor_rerender note note'
        (fst (handleContentChange note v now e st)) =
        fst (handleContentChange note v now e st) /\
      (e = editor_reset note ->
       fst (handleContentChange note v now e st) = editor_reset note')) /\
   (~ In (id note)
        (map id (view (snd (handleContentChange note v now e st)))) ->
    selectedId (effect (snd (handleContentChange note v now e st))) =
      head (map id (view (snd (handleContentChange note v now e st)))) /\
    forall note',
      selectedNote (effect (snd (handleContentChange note v now e st))) =
        Some note' ->
      id note' <> id note /\
      editor_rerender note note'
        (fst (handleContentChange note v now e st)) =
        editor_reset note')).
Proof.
  intros Hsel. split; cbn [handleTitleChange handleContentChange fst snd].
  - split; [|split].
    + now apply handleEditNote_no_search.
    + intros Hin. exists (patch FTitle v now note).
      rewrite handleEditNote_shown by (discriminate || assumption).
      repeat split.
      * unfold editor_rerender. now rewrite decide_True.
      * now intros ->.
    + now apply handleEditNote_hidden.
  - split; [|split].
    + now apply handleEditNote_no_search.
    + intros Hin. exists (patch FContent v now note).
      rewrite handleEditNote_shown by (discriminate || assumption).
      repeat split.
      * unfold editor_rerender. now rewrite decide_True.
      * now intros ->.
    + now apply handleEditNote_hidden.
Qed.
End AfterTheEffect.

(** ** Closed instances of the statements above *)




(** C4 fails as stated.  While the search "foo" is running, the created
    note is stored in front but the selection after the effect is the note
    "b", not the created one.  And a creation that meets the same random
    digits and clock reading as an earlier one gives the new note the id of
    the note already stored. *)
Lemma create_not_selected_or_same_id :
  notes (selection_effect toLowerCase_latin1
           (handleAddNote "0.a" 1 1 (demo_state (Some "b") "foo"))) =
    new_note "0.a" 1 1 :: demo_notes /\
  id (new_note "0.a" 1 1) = "note_a_1" /\
  selectedId (selection_effect toLowerCase_latin1
                (handleAddNote "0.a" 1 1 (demo_state (Some "b") "foo"))) =
    Some "b" /\
  selectedNote (selection_effect toLowerCase_latin1
                  (handleAddNote "0.a" 1 1 (demo_state (Some "b") "foo"))) =
    Some (mkNote "b" "foo" "bar" 7) /\
  ids (notes (handleAddNote "0.4fzyo82mvyr" 1730000000000 1730000000001
                (mkState
                   [new_note "0.4fzyo82mvyr" 1730000000000 1730000000000]
                   None "" true false))) =
    ["note_4fzyo82mv_m2r1bz7k"; "note_4fzyo82mv_m2r1bz7k"].
Proof. repeat split; reflexivity. Qed.

(** C4: creating a note with no search running, and while the search "foo"
    hides it. *)
Lemma handleAddNote_selected_when_shown_witness :
  main_pane (selection_effect toLowerCase_latin1
               (handleAddNote "0.a" 1 1 (demo_state (Some "b") ""))) =
    PaneEditor (new_note "0.a" 1 1) /\
  selectedId (selection_effect toLowerCase_latin1
                (handleAddNote "0.a" 1 1 (demo_state (Some "b") "foo"))) =
    head (map id (getFilteredNotes toLowerCase_latin1
                    (demo_state (Some "b") "foo"))).
Proof.
  split.
  - destruct (handleAddNote_selected_when_shown toLowerCase_latin1 "0.a" 1 1
                (demo_state (Some "b") "")) as (_ & Hshown & _).
    apply Hshown. now left.
  - destruct (handleAddNote_selected_when_shown toLowerCase_latin1 "0.a" 1 1
                (demo_state (Some "b") "foo")) as (_ & _ & Hhidden).
    apply Hhidden.
    + discriminate.
    + reflexivity.
    + simpl. intros [H|[]]. discriminate H.
Defined.

(** A keystroke in the title of the note "b" with no search running, and one
    that takes the note out of the search "foo". *)
Lemma editor_keystroke_then_effect_witness :
  (exists note',
     selectedNote
       (selection_effect toLowerCase_latin1
          (snd (handleTitleChange (mkNote "b" "foo" "bar" 7) "fo" 9
                  (editor_reset (mkNote "b" "foo" "bar" 7))
                  (demo_state (Some "b") "")))) = Some note' /\
     title note' = "fo" /\ content note' = "bar" /\
     fst (handleTitleChange (mkNote "b" "foo" "bar" 7) "fo" 9
            (editor_reset (mkNote "b" "foo" "bar" 7))
            (demo_state (Some "b") "")) = editor_reset note') /\
  selectedId
    (selection_effect toLowerCase_latin1
       (snd (handleTitleChange (mkNote "b" "foo" "bar" 7) "fo" 9
               (editor_reset (mkNote "b" "foo" "bar" 7))
               (demo_state (Some "b") "foo")))) = None.
Proof.
  split.
  - destruct (editor_keystroke_then_effect toLowerCase_latin1
                (mkNote "b" "foo" "bar" 7) "fo" 9
                (editor_reset (mkNote "b" "foo" "bar" 7))
                (demo_state (Some "b") "") eq_refl)
      as [(Hall & Hshown & _) _].
    destruct (Hshown (Hall eq_refl))
      as (note' & Hsel & _ & Ht & Hc & _ & _ & Hsync).
    exists note'. split; [exact Hsel|]. split; [exact Ht|].
    split; [exact Hc|]. now apply Hsync.
  - destruct (editor_keystroke_then_effect toLowerCase_latin1
                (mkNote "b" "foo" "bar" 7) "fo" 9
                (editor_reset (mkNote "b" "foo" "bar" 7))
                (demo_state (Some "b") "foo") eq_refl)
      as [(_ & _ & Hhidden) _].
    destruct Hhidden as [Hmoved _]; [|exact Hmoved].
    simpl. intros [].
Defined.
